(** * Display-mode catalogue of the windowing layer (xbmc/windowing/WinSystem.cpp)

    A shallow embedding of the resolution catalogue ([AddResolution],
    [resSortPredicate], [ScreenResolutions]), of the refresh-rate collector
    and selector ([AddRefreshRate], [RefreshRates], [DefaultRefreshRate]), of
    the render-loop registry ([RegisterRenderLoop], [UnregisterRenderLoop],
    [DriveRenderLoop]) and of the HDR status probe ([GetHDRDisplayStatus]),
    together with the properties the specification states about them; and
    of the HDR toggle ([ToggleWindowsHDR], [IsDisplayHDREnabled]), of the
    screen saver manager ([GetOSScreenSaver], [DestroyWindowSystem]) and of
    the window and desktop records ([UpdateResolutions],
    [UpdateDesktopResolution]), with further properties read off the code.

    Conventions.
    - C [int] and [unsigned int] values are integers of [Z]; the conversions
      the source performs between them are written out with [to_int] and
      [to_uint].
    - C [float] values are IEEE-754 binary32 numbers, taken from the
      standard library's [spec_float] at precision 24 and maximal exponent
      128, with its comparison, subtraction and absolute value.
    - [std::vector] is [list]; [v[i]] is stdpp's lookup [v !! i] and an
      assignment to a field of [v[i]] is stdpp's [alter] at [i].
    - [CDisplaySettings::GetInstance()] is an explicit [DisplaySettings]
      argument. *)

From Stdlib Require Import ZArith Bool Lia.
From Stdlib Require Import Floats.SpecFloat.
From stdpp Require Import base list sorting strings.

Local Open Scope Z_scope.

(** ** Machine integers *)

Module MachineInt.

(** Conversion of an integer value to [unsigned int] / [uint32_t]. *)
Definition to_uint (z : Z) : Z := z mod 2 ^ 32.

(** Conversion of an integer value to [int] (two's complement wrap). *)
Definition to_int (z : Z) : Z := (z + 2 ^ 31) mod 2 ^ 32 - 2 ^ 31.

Lemma to_uint_id z : 0 <= z < 2 ^ 32 -> to_uint z = z.
Proof. intros H. unfold to_uint. now apply Z.mod_small. Qed.

Lemma to_int_id z : - 2 ^ 31 <= z < 2 ^ 31 -> to_int z = z.
Proof. intros H. unfold to_int. rewrite Z.mod_small; lia. Qed.

Lemma to_int_range z : - 2 ^ 31 <= to_int z < 2 ^ 31.
Proof.
  unfold to_int.
  pose proof (Z.mod_pos_bound (z + 2 ^ 31) (2 ^ 32) ltac:(lia)). lia.
Qed.

(** Masking with a non-negative mask stays between [0] and the mask. *)
Lemma land_mask_range z m : 0 <= m -> 0 <= Z.land z m <= m.
Proof.
  intros Hm. split.
  - apply Z.land_nonneg. now right.
  - destruct (Z.eq_dec m 0) as [->|Hne].
    + rewrite Z.land_0_r. lia.
    + assert (Hsub : Z.land z m = m - Z.land m (Z.lnot z)).
      { assert (Hd : m = Z.lor (Z.land z m) (Z.land m (Z.lnot z))).
        { apply Z.bits_inj'. intros n Hn.
          rewrite Z.lor_spec, !Z.land_spec, Z.lnot_spec by lia.
          destruct (Z.testbit z n), (Z.testbit m n); reflexivity. }
        assert (Hx : Z.land (Z.land z m) (Z.land m (Z.lnot z)) = 0).
        { apply Z.bits_inj'. intros n Hn.
          rewrite !Z.land_spec, Z.lnot_spec, Z.bits_0 by lia.
          destruct (Z.testbit z n), (Z.testbit m n); reflexivity. }
        pose proof (Z.add_lor_land (Z.land z m) (Z.land m (Z.lnot z))) as Ha.
        rewrite Hx, Z.add_0_r, <- Hd in Ha. lia. }
      assert (0 <= Z.land m (Z.lnot z)) by (apply Z.land_nonneg; now left).
      lia.
Qed.

End MachineInt.

(** ** Single-precision floats *)

Module F32.

Definition float := spec_float.

Definition prec : Z := 24.
Definition emax : Z := 128.

(** The operators of the source on [float] operands. *)
Definition eqb (x y : float) : bool := SFeqb x y.          (* x == y *)
Definition ltb (x y : float) : bool := SFltb x y.          (* x <  y *)
Definition leb (x y : float) : bool := SFleb x y.          (* x <= y *)
Definition sub (x y : float) : float := SFsub prec emax x y. (* x - y *)
Definition fabs (x : float) : float := SFabs x.

Definition is_nan (x : float) : bool :=
  match x with S754_nan => true | _ => false end.

(** Literals: [of_Z m e] is the binary32 number nearest to [m * 2^e]. *)
Definition of_Z (m e : Z) : float := binary_normalize prec emax m e false.

Definition zero : float := S754_zero false.                (* 0.0f *)
Definition minus_one : float := Eval cbv in of_Z (-1) 0.   (* -1.0f *)

(** Refresh rates of the examples. [59.94f] is the binary32 number nearest
    to 59.94, with bit pattern [0x426FC28F]. *)
Definition f50 : float := Eval cbv in of_Z 50 0.
Definition f52 : float := Eval cbv in of_Z 52 0.
Definition f55 : float := Eval cbv in of_Z 55 0.
Definition f60 : float := Eval cbv in of_Z 60 0.
Definition f59_94 : float := S754_finite false 15712911 (-18).

(** *** The order behind [SFcompare]

    Every float that is not a NaN has a rank in the lexicographic order
    of integer triples; [SFcompare] compares ranks. *)

Definition rank (x : float) : option (Z * Z * Z) :=
  match x with
  | S754_nan => None
  | S754_infinity true => Some (-2, 0, 0)
  | S754_finite true m e => Some (-1, - e, - Zpos m)
  | S754_zero _ => Some (0, 0, 0)
  | S754_finite false m e => Some (1, e, Zpos m)
  | S754_infinity false => Some (2, 0, 0)
  end.

Definition lex_compare (a b : Z * Z * Z) : comparison :=
  let '(a1, a2, a3) := a in
  let '(b1, b2, b3) := b in
  match a1 ?= b1 with
  | Eq => match a2 ?= b2 with Eq => a3 ?= b3 | c => c end
  | c => c
  end.

Definition lex_lt (a b : Z * Z * Z) : Prop :=
  let '(a1, a2, a3) := a in
  let '(b1, b2, b3) := b in
  a1 < b1 \/ (a1 = b1 /\ (a2 < b2 \/ (a2 = b2 /\ a3 < b3))).

Lemma lex_compare_Lt a b : lex_compare a b = Lt <-> lex_lt a b.
Proof.
  destruct a as [[a1 a2] a3], b as [[b1 b2] b3]. simpl.
  destruct (Z.compare_spec a1 b1), (Z.compare_spec a2 b2),
    (Z.compare_spec a3 b3); split; intros Hc; try discriminate;
    try reflexivity; lia.
Qed.

Lemma lex_compare_Eq a b : lex_compare a b = Eq <-> a = b.
Proof.
  destruct a as [[a1 a2] a3], b as [[b1 b2] b3]. simpl.
  destruct (Z.compare_spec a1 b1), (Z.compare_spec a2 b2),
    (Z.compare_spec a3 b3); split; intros Hc; try discriminate;
    try reflexivity; try (inversion Hc; lia); subst; reflexivity.
Qed.

Lemma SFcompare_rank x y :
  SFcompare x y =
  match rank x, rank y with
  | Some a, Some b => Some (lex_compare a b)
  | _, _ => None
  end.
Proof.
  destruct x as [[]|[]| |[] m1 e1], y as [[]|[]| |[] m2 e2];
    try reflexivity; simpl.
  (* the only case left: two negative numbers *)
  rewrite Z.compare_opp, (Z.compare_antisym e1 e2).
  destruct (e1 ?= e2); reflexivity.
Qed.

Lemma ltb_rank x y :
  ltb x y = true <-> exists a b, rank x = Some a /\ rank y = Some b /\ lex_lt a b.
Proof.
  unfold ltb, SFltb. rewrite SFcompare_rank.
  destruct (rank x) as [a|], (rank y) as [b|];
    try (split; [discriminate | intros (?&?&?&?&?); discriminate]).
  split.
  - intros H. exists a, b. repeat split. apply lex_compare_Lt.
    destruct (lex_compare a b); congruence.
  - intros (a'&b'&[= Ha]&[= Hb]&H). subst.
    apply lex_compare_Lt in H. now rewrite H.
Qed.

Lemma eqb_rank x y :
  eqb x y = true <-> exists a, rank x = Some a /\ rank y = Some a.
Proof.
  unfold eqb, SFeqb. rewrite SFcompare_rank.
  destruct (rank x) as [a|], (rank y) as [b|];
    try (split; [discriminate | intros (?&?&?); discriminate]).
  split.
  - intros H. exists a. split; [reflexivity|]. f_equal. symmetry.
    apply lex_compare_Eq. destruct (lex_compare a b); congruence.
  - intros (a'&[= Ha]&[= Hb]). subst.
    now rewrite (proj2 (lex_compare_Eq _ _) eq_refl).
Qed.

Lemma lex_lt_irrefl a : ~ lex_lt a a.
Proof. destruct a as [[a1 a2] a3]. simpl. lia. Qed.

Lemma lex_lt_trans a b c : lex_lt a b -> lex_lt b c -> lex_lt a c.
Proof.
  destruct a as [[a1 a2] a3], b as [[b1 b2] b3], c as [[c1 c2] c3].
  simpl. lia.
Qed.

Lemma lex_total a b : lex_lt a b \/ a = b \/ lex_lt b a.
Proof.
  destruct a as [[a1 a2] a3], b as [[b1 b2] b3]. simpl.
  destruct (Z.lt_total a1 b1) as [?|[?|?]];
    destruct (Z.lt_total a2 b2) as [?|[?|?]];
    destruct (Z.lt_total a3 b3) as [?|[?|?]]; subst; auto;
    try (left; lia); right; right; lia.
Qed.

(** *** Consequences for [<] and [==] *)

Lemma ltb_irrefl x : ltb x x = false.
Proof.
  apply not_true_is_false. intros (a&b&Ha&Hb&Hl)%ltb_rank.
  rewrite Ha in Hb. injection Hb as <-. now apply lex_lt_irrefl in Hl.
Qed.

Lemma ltb_trans x y z : ltb x y = true -> ltb y z = true -> ltb x z = true.
Proof.
  intros (a&b&Ha&Hb&Hab)%ltb_rank (b'&c&Hb'&Hc&Hbc)%ltb_rank.
  rewrite Hb in Hb'. injection Hb' as <-.
  apply ltb_rank. exists a, c. eauto using lex_lt_trans.
Qed.

Lemma ltb_asym x y : ltb x y = true -> ltb y x = false.
Proof.
  intros H. apply not_true_is_false. intros H'.
  pose proof (ltb_trans _ _ _ H H') as Hxx. now rewrite ltb_irrefl in Hxx.
Qed.

Lemma eqb_ltb_trans x y z : eqb x y = true -> ltb y z = true -> ltb x z = true.
Proof.
  intros (a&Ha&Hb)%eqb_rank (b'&c&Hb'&Hc&Hbc)%ltb_rank.
  rewrite Hb in Hb'. injection Hb' as <-.
  apply ltb_rank. exists a, c. eauto.
Qed.

Lemma ltb_eqb_trans x y z : ltb x y = true -> eqb y z = true -> ltb x z = true.
Proof.
  intros (a&b&Ha&Hb&Hab)%ltb_rank (b'&Hb'&Hc)%eqb_rank.
  rewrite Hb in Hb'. injection Hb' as <-.
  apply ltb_rank. exists a, b. eauto.
Qed.

Lemma eqb_sym x y : eqb x y = eqb y x.
Proof.
  apply eq_true_iff_eq. rewrite !eqb_rank. split; intros (a&?&?); eauto.
Qed.

Lemma eqb_trans x y z : eqb x y = true -> eqb y z = true -> eqb x z = true.
Proof.
  intros (a&Ha&Hb)%eqb_rank (b'&Hb'&Hc)%eqb_rank.
  rewrite Hb in Hb'. injection Hb' as <-. apply eqb_rank. eauto.
Qed.

Lemma eqb_refl x : is_nan x = false -> eqb x x = true.
Proof.
  intros H. apply eqb_rank. destruct x as [[]|[]| |[] m e]; simpl; eauto.
  discriminate.
Qed.

Lemma eqb_nan_l x y : is_nan x = true -> eqb x y = false.
Proof. destruct x; try discriminate. reflexivity. Qed.

Lemma eqb_not_ltb x y : eqb x y = true -> ltb x y = false.
Proof.
  intros H. apply not_true_is_false. intros H'.
  rewrite eqb_sym in H.
  pose proof (ltb_eqb_trans _ _ _ H' H) as Hxx. now rewrite ltb_irrefl in Hxx.
Qed.

(** Floats that are not NaNs are totally ordered. *)
Lemma leb_of_not_ltb x y :
  is_nan x = false -> is_nan y = false -> ltb y x = false -> leb x y = true.
Proof.
  intros Hx Hy H. unfold leb, SFleb. unfold ltb, SFltb in H.
  rewrite SFcompare_rank in *.
  destruct (rank x) as [a|] eqn:Ha; [|destruct x as [[]|[]| |[]]; discriminate].
  destruct (rank y) as [b|] eqn:Hb; [|destruct y as [[]|[]| |[]]; discriminate].
  destruct (lex_total a b) as [Hl|[->|Hl]].
  - apply lex_compare_Lt in Hl. now rewrite Hl.
  - now rewrite (proj2 (lex_compare_Eq b b) eq_refl).
  - apply lex_compare_Lt in Hl. now rewrite Hl in H.
Qed.

(** An absolute value is never below zero. *)
Lemma fabs_not_neg x : ltb (fabs x) zero = false.
Proof. destruct x as [[]|[]| |[] m e]; reflexivity. Qed.

Lemma minus_one_neg : ltb minus_one zero = true.
Proof. reflexivity. Qed.

End F32.

Import MachineInt.

(** ** Data model *)

(** The fields of [RESOLUTION_INFO] the catalogue reads: [iScreenWidth] and
    [iScreenHeight] are [int], [dwFlags] is [uint32_t], [fRefreshRate] is
    [float]. *)
Record RESOLUTION_INFO := {
  iScreenWidth : Z;
  iScreenHeight : Z;
  dwFlags : Z;
  fRefreshRate : F32.float
}.

(** [struct RESOLUTION_WHR { int width; int height; int flags;
    int ResInfo_Index; }]. *)
Record RESOLUTION_WHR := {
  width : Z;
  height : Z;
  flags : Z;
  ResInfo_Index : Z
}.

(** [struct REFRESHRATE { float RefreshRate; int ResInfo_Index; }]; the
    second field is [RR_ResInfo_Index] here, the name [ResInfo_Index] being
    taken by [RESOLUTION_WHR]. *)
Record REFRESHRATE := {
  RefreshRate : F32.float;
  RR_ResInfo_Index : Z
}.

(** The two operations of [CDisplaySettings::GetInstance()] the catalogue
    calls. Record counts are below [2^32], so that the [unsigned int] loop
    counters of the source are natural numbers that do not wrap. *)
Record DisplaySettings := {
  GetResolutionInfo : nat -> RESOLUTION_INFO;
  ResolutionInfoSize : nat
}.

(** The settings store that holds the vector [records]; [empty] is what it
    answers outside the vector, which the catalogue never asks for. *)
Definition settings_of_vector (records : list RESOLUTION_INFO)
    (empty : RESOLUTION_INFO) : DisplaySettings :=
  {| GetResolutionInfo := fun idx => default empty (records !! idx);
     ResolutionInfoSize := length records |}.

(** [resolutions[idx].ResInfo_Index = v]. *)
Definition set_ResInfo_Index (v : Z) (r : RESOLUTION_WHR) : RESOLUTION_WHR :=
  {| width := width r; height := height r; flags := flags r;
     ResInfo_Index := v |}.

(** How a call ends: it returns a value, it reports one of the errors of
    the specification's taxonomy (the source has no [throw] and no error
    code, so that no function below ends this way), or it has no defined
    behaviour (a [std::vector] read out of bounds through [operator[]],
    which checks nothing). *)
Inductive error := InvalidArgument | PlatformQueryFailed | NotFound.

Inductive outcome (A : Type) :=
| Returns (a : A)
| Fails (e : error)
| Undefined.

Arguments Returns {A} a.
Arguments Fails {A} e.
Arguments Undefined {A}.

(** ** Sorting *)

(** [std::sort(first, last, less)] is code of the C++ library, not of this
    file. For a comparator that is a strict weak ordering on the elements
    it fixes its result as a sorted permutation of the input and leaves the
    order of equivalent elements open; for any other comparator (here:
    [rrSortPredicate] on vectors that hold a NaN rate) the standard gives
    it no meaning at all.

    It is taken to be stdpp's [merge_sort] for the relation
    [not_after less]. Two things are the stand-in's own and not the
    library's: where it puts equivalent elements, and that it returns a
    permutation for every comparator. No statement of this development
    depends on the first: the properties use that the result is a
    permutation of the input ([std_sort_Permutation]) and, for
    [resSortPredicate] and for [rrSortPredicate] on rates that are not NaN,
    that it is sorted; the closed instances state results with tied keys up
    to order. The properties of [RefreshRates] that are stated for every
    store read a vector with a NaN rate as the permutation the stand-in
    returns. *)
Definition not_after {A : Type} (less : A -> A -> bool) : relation A :=
  fun x y => less y x = false.

#[global] Instance not_after_dec {A : Type} (less : A -> A -> bool) :
  RelDecision (not_after less).
Proof. intros x y. unfold not_after. apply bool_eq_dec. Defined.

Definition std_sort {A : Type} (less : A -> A -> bool) (v : list A) : list A :=
  merge_sort (not_after less) v.

Lemma std_sort_Permutation {A : Type} (less : A -> A -> bool) (v : list A) :
  std_sort less v ≡ₚ v.
Proof. apply merge_sort_Permutation. Qed.

(** ** The resolution comparator *)

Definition resSortPredicate (i j : RESOLUTION_WHR) : bool :=
  (width i <? width j)
  || ((width i =? width j) && (height i <? height j))
  || ((width i =? width j) && (height i =? height j) && (flags i <? flags j)).

(** Equivalence induced by the comparator: neither is less. *)
Definition resEquiv (i j : RESOLUTION_WHR) : bool :=
  negb (resSortPredicate i j) && negb (resSortPredicate j i).

(** Lexicographic order on (width, height, flags). *)
Definition whf_lt (i j : RESOLUTION_WHR) : Prop :=
  width i < width j
  \/ (width i = width j /\ height i < height j)
  \/ (width i = width j /\ height i = height j /\ flags i < flags j).

Definition whf_eq (i j : RESOLUTION_WHR) : Prop :=
  width i = width j /\ height i = height j /\ flags i = flags j.

Lemma resSortPredicate_spec i j : resSortPredicate i j = true <-> whf_lt i j.
Proof. unfold resSortPredicate, whf_lt. lia. Qed.

Lemma resSortPredicate_false i j :
  resSortPredicate i j = false <-> ~ whf_lt i j.
Proof. rewrite <- resSortPredicate_spec. now destruct (resSortPredicate i j). Qed.

Lemma resEquiv_spec i j : resEquiv i j = true <-> whf_eq i j.
Proof.
  unfold resEquiv. rewrite andb_true_iff, !negb_true_iff, !resSortPredicate_false.
  unfold whf_lt, whf_eq. lia.
Qed.

(** C2. [resSortPredicate] orders by width, then height, then flags, all
    ascending, and is a strict weak ordering: it is irreflexive, asymmetric
    and transitive; of [less i j], [less j i] and equivalence exactly one
    holds for every pair; equivalence is agreement on (width, height,
    flags) and is transitive. *)
Theorem resSortPredicate_strict_weak_ordering :
  (forall i j, resSortPredicate i j = true <->
     width i < width j
     \/ (width i = width j /\ height i < height j)
     \/ (width i = width j /\ height i = height j /\ flags i < flags j))
  /\ (forall i, resSortPredicate i i = false)
  /\ (forall i j, resSortPredicate i j = true -> resSortPredicate j i = false)
  /\ (forall i j k, resSortPredicate i j = true -> resSortPredicate j k = true ->
        resSortPredicate i k = true)
  /\ (forall i j,
        (resSortPredicate i j = true /\ resSortPredicate j i = false /\ resEquiv i j = false)
        \/ (resSortPredicate i j = false /\ resSortPredicate j i = true /\ resEquiv i j = false)
        \/ (resSortPredicate i j = false /\ resSortPredicate j i = false /\ resEquiv i j = true))
  /\ (forall i j, resEquiv i j = true <->
        width i = width j /\ height i = height j /\ flags i = flags j)
  /\ (forall i j k, resEquiv i j = true -> resEquiv j k = true -> resEquiv i k = true).
Proof.
  split; [exact resSortPredicate_spec|].
  split; [intros i; apply resSortPredicate_false; unfold whf_lt; lia|].
  split; [intros i j; rewrite resSortPredicate_spec, resSortPredicate_false;
          unfold whf_lt; lia|].
  split; [intros i j k; rewrite !resSortPredicate_spec; unfold whf_lt; lia|].
  split.
  { intros i j.
    destruct (resSortPredicate i j) eqn:Hij, (resSortPredicate j i) eqn:Hji;
      unfold resEquiv; rewrite Hij, Hji; simpl; auto.
    apply resSortPredicate_spec in Hij, Hji. unfold whf_lt in *. lia. }
  split; [exact resEquiv_spec|].
  intros i j k. rewrite !resEquiv_spec. unfold whf_eq. lia.
Qed.

(** ** More on single-precision floats *)

Module F32Arith.

(** Zeros and finite numbers: neither a NaN nor an infinity. *)
Definition is_finite (x : F32.float) : bool :=
  match x with
  | S754_zero _ | S754_finite _ _ _ => true
  | _ => false
  end.

Lemma is_finite_not_nan x : is_finite x = true -> F32.is_nan x = false.
Proof. now destruct x. Qed.

(** Of two floats that are not NaNs one is below the other or they are
    equal. *)
Lemma trichotomy x y :
  F32.is_nan x = false -> F32.is_nan y = false ->
  F32.ltb x y = true \/ F32.eqb x y = true \/ F32.ltb y x = true.
Proof.
  intros Hx Hy.
  destruct (F32.rank x) as [a|] eqn:Ha; [|destruct x as [[]|[]| |[]]; discriminate].
  destruct (F32.rank y) as [b|] eqn:Hb; [|destruct y as [[]|[]| |[]]; discriminate].
  destruct (F32.lex_total a b) as [Hl|[->|Hl]].
  - left. apply F32.ltb_rank. eauto.
  - right. left. apply F32.eqb_rank. eauto.
  - right. right. apply F32.ltb_rank. eauto.
Qed.

(** *** Rounding never makes a NaN *)

Lemma iter_pos_invariant {A : Type} (P : A -> Prop) (f : A -> A) :
  (forall a, P a -> P (f a)) ->
  forall n a, P a -> P (SpecFloat.iter_pos f n a).
Proof.
  intros Hf. induction n as [n IH|n IH|]; intros a Ha; simpl; auto.
Qed.

Lemma shr_1_nonneg mrs : 0 <= shr_m mrs -> 0 <= shr_m (shr_1 mrs).
Proof.
  destruct mrs as [m r s]. simpl.
  destruct m as [|[p|p|]|[p|p|]]; simpl; lia.
Qed.

Lemma shr_nonneg mrs e n : 0 <= shr_m mrs -> 0 <= shr_m (fst (shr mrs e n)).
Proof.
  intros H. unfold shr. destruct n as [|p|p]; simpl; try exact H.
  now apply (iter_pos_invariant (fun mrs => 0 <= shr_m mrs) shr_1 shr_1_nonneg).
Qed.

Lemma shr_fexp_nonneg prec emax m e l :
  0 <= m -> 0 <= shr_m (fst (shr_fexp prec emax m e l)).
Proof.
  intros H. unfold shr_fexp. apply shr_nonneg.
  destruct l as [|[]]; exact H.
Qed.

Lemma round_nearest_even_nonneg m l : 0 <= m -> 0 <= round_nearest_even m l.
Proof.
  intros H. unfold round_nearest_even.
  destruct l as [|[]]; try destruct (Z.even m); lia.
Qed.

Lemma binary_round_aux_not_nan prec emax sx mx ex lx :
  0 <= mx -> F32.is_nan (binary_round_aux prec emax sx mx ex lx) = false.
Proof.
  intros H. unfold binary_round_aux.
  pose proof (shr_fexp_nonneg prec emax mx ex lx H) as H1.
  destruct (shr_fexp prec emax mx ex lx) as [mrs' e']. simpl in H1.
  pose proof (shr_fexp_nonneg prec emax
                (round_nearest_even (shr_m mrs') (loc_of_shr_record mrs'))
                e' loc_Exact (round_nearest_even_nonneg _ _ H1)) as H2.
  destruct (shr_fexp prec emax _ e' loc_Exact) as [mrs'' e'']. simpl in H2.
  destruct (shr_m mrs'') as [|m|m]; [reflexivity | | lia].
  now destruct (e'' <=? emax - prec).
Qed.

Lemma binary_normalize_not_nan prec emax m e szero :
  F32.is_nan (binary_normalize prec emax m e szero) = false.
Proof.
  unfold binary_normalize, binary_round. destruct m as [|m|m]; [reflexivity| |].
  - destruct (shl_align m e _) as [mz ez].
    apply binary_round_aux_not_nan. lia.
  - destruct (shl_align m e _) as [mz ez].
    apply binary_round_aux_not_nan. lia.
Qed.

(** The difference of two finite numbers is not a NaN. *)
Lemma sub_not_nan x y :
  is_finite x = true -> is_finite y = true -> F32.is_nan (F32.sub x y) = false.
Proof.
  destruct x as [sx| | |sx mx ex], y as [sy| | |sy my ey]; try discriminate;
    intros _ _; unfold F32.sub, SFsub.
  - now destruct sx, sy.
  - reflexivity.
  - reflexivity.
  - apply binary_normalize_not_nan.
Qed.

(** The difference of two equal finite numbers is a zero. *)
Lemma sub_equal x y :
  is_finite x = true -> F32.eqb y x = true ->
  F32.eqb (F32.fabs (F32.sub x y)) F32.zero = true.
Proof.
  intros Hx (a & Hy & Hxa)%F32.eqb_rank. rewrite <- Hxa in Hy. clear Hxa.
  destruct x as [[]|[]| |[] mx ex], y as [[]|[]| |[] my ey];
    try discriminate; try reflexivity; simpl in Hy;
    assert (ey = ex /\ my = mx) as [-> ->]
      by (injection Hy as He Hm; split; [lia | congruence]);
    unfold F32.sub, SFsub; simpl; rewrite Z.sub_diag; reflexivity.
Qed.

End F32Arith.

(** ** The resolution catalogue *)

Section Catalogue.

(** Constants of headers that are not part of the sources: the mask of
    the mode bits of [dwFlags], the index of the desktop mode, at which
    [RefreshRates] starts its scan, and the index of the first custom mode,
    at which [ScreenResolutions] starts. *)
Variable D3DPRESENTFLAG_MODEMASK : Z.
Variable RES_DESKTOP RES_CUSTOM : nat.

(** [resInfo.dwFlags & D3DPRESENTFLAG_MODEMASK], an [unsigned int]. *)
Definition mode_bits (dw : Z) : Z :=
  Z.land dw (to_uint D3DPRESENTFLAG_MODEMASK).

(** The test of the loop of [AddResolution] on [resolutions[idx]]. *)
Definition same_mode (w h f : Z) (r : RESOLUTION_WHR) : bool :=
  (width r =? w) && (height r =? h)
  && (Z.land (flags r) D3DPRESENTFLAG_MODEMASK =? f).

(** The loop [for (idx = from; idx < resolutions.size(); idx++)], where
    [rest] holds [resolutions[from]], [resolutions[from + 1]], ...: the
    index at which the loop body is entered, if it is. *)
Fixpoint AddResolution_match (w h f : Z) (idx : nat)
    (rest : list RESOLUTION_WHR) : option nat :=
  match rest with
  | [] => None
  | r :: rest' =>
      if same_mode w h f r then Some idx
      else AddResolution_match w h f (S idx) rest'
  end.

Definition AddResolution (settings : DisplaySettings)
    (resolutions : list RESOLUTION_WHR) (addindex : nat)
    (bestRefreshrate : F32.float) : list RESOLUTION_WHR :=
  let resInfo := GetResolutionInfo settings addindex in
  let w := iScreenWidth resInfo in
  let h := iScreenHeight resInfo in
  let f := to_int (mode_bits (dwFlags resInfo)) in
  let refreshrate := fRefreshRate resInfo in
  (* don't touch RES_DESKTOP: the scan starts at index 1 *)
  match AddResolution_match w h f 1 (drop 1 resolutions) with
  | Some idx =>
      if F32.ltb F32.zero bestRefreshrate && F32.eqb refreshrate bestRefreshrate
      then alter (set_ResInfo_Index (to_int (Z.of_nat addindex))) idx resolutions
      else resolutions
  | None =>
      resolutions ++
        [ {| width := w; height := h; flags := f;
             ResInfo_Index := to_int (Z.of_nat addindex) |} ]
  end.

(** The loop of [ScreenResolutions], before the sort. *)
Definition ScreenResolutions_loop (settings : DisplaySettings)
    (refreshrate : F32.float) : list RESOLUTION_WHR :=
  foldl (fun resolutions idx => AddResolution settings resolutions idx refreshrate)
        [] (seq RES_CUSTOM (ResolutionInfoSize settings - RES_CUSTOM)).

Definition ScreenResolutions (settings : DisplaySettings)
    (refreshrate : F32.float) : list RESOLUTION_WHR :=
  std_sort resSortPredicate (ScreenResolutions_loop settings refreshrate).

(** The uniqueness key of a record and of a catalogue entry. *)
Definition info_key (i : RESOLUTION_INFO) : Z * Z * Z :=
  (iScreenWidth i, iScreenHeight i, to_int (mode_bits (dwFlags i))).

Definition key (r : RESOLUTION_WHR) : Z * Z * Z :=
  (width r, height r, Z.land (flags r) D3DPRESENTFLAG_MODEMASK).

(** No two entries of [v] share a key. *)
Definition unique_keys (v : list RESOLUTION_WHR) : Prop :=
  forall i j a b, v !! i = Some a -> v !! j = Some b -> key a = key b -> i = j.

(** *** Masking

    The mask is a non-negative [int] value, [mask_in_range]: converting it
    between [int] and [unsigned int] does not change it, whichever of the
    two the header makes it. *)

Definition mask_in_range : Prop := 0 <= D3DPRESENTFLAG_MODEMASK < 2 ^ 31.

Lemma mode_bits_range dw :
  mask_in_range -> 0 <= mode_bits dw <= D3DPRESENTFLAG_MODEMASK.
Proof.
  unfold mask_in_range. intros MODEMASK_range. unfold mode_bits. rewrite to_uint_id by lia.
  apply land_mask_range. lia.
Qed.

Lemma to_int_mode_bits dw :
  mask_in_range -> to_int (mode_bits dw) = Z.land dw D3DPRESENTFLAG_MODEMASK.
Proof.
  intros MODEMASK_range. pose proof (mode_bits_range dw MODEMASK_range).
  unfold mask_in_range in MODEMASK_range.
  rewrite to_int_id by lia. unfold mode_bits. now rewrite to_uint_id by lia.
Qed.

Lemma mode_bits_idem dw :
  mask_in_range ->
  Z.land (to_int (mode_bits dw)) D3DPRESENTFLAG_MODEMASK = to_int (mode_bits dw).
Proof.
  intros MODEMASK_range.
  rewrite to_int_mode_bits, <- Z.land_assoc by assumption.
  now rewrite Z.land_diag.
Qed.

Lemma same_mode_key w h f r :
  same_mode w h f r = true <-> key r = (w, h, f).
Proof.
  unfold same_mode, key. rewrite !andb_true_iff, !Z.eqb_eq.
  split; [intros [[-> ->] ->]; reflexivity | intros [= -> -> ->]; auto].
Qed.

(** *** The scan *)

Lemma AddResolution_match_Some w h f from rest idx :
  AddResolution_match w h f from rest = Some idx ->
  (from <= idx)%nat
  /\ (exists r, rest !! (idx - from)%nat = Some r /\ same_mode w h f r = true)
  /\ (forall j r, (j < idx - from)%nat -> rest !! j = Some r ->
        same_mode w h f r = false).
Proof.
  revert from. induction rest as [|r rest IH]; intros from; simpl; [discriminate|].
  destruct (same_mode w h f r) eqn:Hr.
  - intros [= <-]. split; [lia|]. rewrite Nat.sub_diag. split; [eauto|].
    intros j r' Hj. lia.
  - intros H. destruct (IH _ H) as (Hle & (r' & Hr' & Hm) & Hbefore).
    split; [lia|]. replace (idx - from)%nat with (S (idx - S from)) by lia.
    split; [eauto|]. intros [|j] r'' Hj; simpl.
    + intros [= <-]. exact Hr.
    + apply Hbefore. lia.
Qed.

Lemma AddResolution_match_None w h f from rest :
  AddResolution_match w h f from rest = None <->
  forall r, r ∈ rest -> same_mode w h f r = false.
Proof.
  revert from. induction rest as [|r rest IH]; intros from; simpl.
  - split; [|reflexivity]. intros _ r Hr. inversion Hr.
  - destruct (same_mode w h f r) eqn:Hr.
    + split; [discriminate|]. intros H. specialize (H r (list_elem_of_here _ _)).
      congruence.
    + rewrite IH. split.
      * intros H r' [->|Hin]%elem_of_cons; auto.
      * intros H r' Hin. apply H. now right.
Qed.

Lemma AddResolution_match_first w h f from rest k r :
  rest !! k = Some r -> same_mode w h f r = true ->
  (forall j r', (j < k)%nat -> rest !! j = Some r' -> same_mode w h f r' = false) ->
  AddResolution_match w h f from rest = Some (from + k)%nat.
Proof.
  revert from k. induction rest as [|r0 rest IH]; intros from k; [discriminate|].
  destruct k as [|k]; simpl.
  - intros [= ->] -> _. f_equal. lia.
  - intros Hk Hr Hbefore.
    rewrite (Hbefore 0%nat r0) by (simpl; auto with lia).
    rewrite (IH (S from) k Hk Hr); [f_equal; lia|].
    intros j r' Hj. apply (Hbefore (S j)). lia.
Qed.

(** The entry [AddResolution] appends for the record at [addindex]. *)
Definition new_entry (settings : DisplaySettings) (addindex : nat) : RESOLUTION_WHR :=
  let resInfo := GetResolutionInfo settings addindex in
  {| width := iScreenWidth resInfo;
     height := iScreenHeight resInfo;
     flags := to_int (mode_bits (dwFlags resInfo));
     ResInfo_Index := to_int (Z.of_nat addindex) |}.

(** An output entry matches the incoming record at [addindex]. *)
Definition matches (settings : DisplaySettings) (addindex : nat)
    (r : RESOLUTION_WHR) : bool :=
  let resInfo := GetResolutionInfo settings addindex in
  same_mode (iScreenWidth resInfo) (iScreenHeight resInfo)
            (to_int (mode_bits (dwFlags resInfo))) r.

(** C3. One step of the dedup. An output entry is eligible for matching
    when its position is at least 1. If [idx] is the first eligible
    position whose entry [r] matches the incoming record, then: when
    [bestRefreshrate > 0] and the record's rate equals it, the output is
    the old one with the entry at [idx] keeping its width, height and
    flags and taking the record's index (so the length is unchanged);
    otherwise the output is the old one. If no eligible entry matches,
    the entry of the incoming record is appended. *)
Theorem AddResolution_step settings resolutions addindex bestRefreshrate :
  (forall idx r,
      (1 <= idx)%nat -> resolutions !! idx = Some r ->
      matches settings addindex r = true ->
      (forall j r', (1 <= j < idx)%nat -> resolutions !! j = Some r' ->
                    matches settings addindex r' = false) ->
      AddResolution settings resolutions addindex bestRefreshrate =
        if F32.ltb F32.zero bestRefreshrate
           && F32.eqb (fRefreshRate (GetResolutionInfo settings addindex)) bestRefreshrate
        then <[idx := {| width := width r; height := height r; flags := flags r;
                         ResInfo_Index := to_int (Z.of_nat addindex) |}]> resolutions
        else resolutions)
  /\ ((forall idx r, (1 <= idx)%nat -> resolutions !! idx = Some r ->
                     matches settings addindex r = false) ->
      AddResolution settings resolutions addindex bestRefreshrate =
        resolutions ++
          [ {| width := iScreenWidth (GetResolutionInfo settings addindex);
               height := iScreenHeight (GetResolutionInfo settings addindex);
               flags := to_int (mode_bits (dwFlags (GetResolutionInfo settings addindex)));
               ResInfo_Index := to_int (Z.of_nat addindex) |} ]).
Proof.
  unfold matches, AddResolution. split.
  - intros idx r Hidx Hr Hm Hbefore.
    rewrite (AddResolution_match_first _ _ _ 1 (drop 1 resolutions) (idx - 1) r).
    + replace (1 + (idx - 1))%nat with idx by lia.
      destruct (_ && _); [|reflexivity].
      apply list_eq. intros i. destruct (decide (i = idx)) as [->|Hne].
      * rewrite list_lookup_alter_eq, Hr.
        rewrite list_lookup_insert_eq by (apply (lookup_lt_Some _ _ _ Hr)).
        reflexivity.
      * rewrite list_lookup_alter_ne, list_lookup_insert_ne by congruence.
        reflexivity.
    + rewrite lookup_drop. now replace (1 + (idx - 1))%nat with idx by lia.
    + exact Hm.
    + intros j r' Hj. rewrite lookup_drop. apply Hbefore. lia.
  - intros Hnone.
    rewrite (proj2 (AddResolution_match_None _ _ _ 1 (drop 1 resolutions)));
      [reflexivity|].
    intros r (j & Hj)%list_elem_of_lookup. rewrite lookup_drop in Hj.
    apply (Hnone (1 + j)%nat r); [lia | exact Hj].
Qed.

(** *** Invariants of the dedup loop *)

Lemma unique_keys_NoDup (v : list RESOLUTION_WHR) : unique_keys v <-> NoDup (key <$> v).
Proof.
  unfold unique_keys. rewrite NoDup_alt. split.
  - intros H i j k (a & -> & Ha)%list_lookup_fmap_Some (b & Hk & Hb)%list_lookup_fmap_Some.
    eauto.
  - intros H i j a b Ha Hb Hk. apply (H i j (key a)); rewrite list_lookup_fmap.
    + now rewrite Ha.
    + now rewrite Hb, Hk.
Qed.

Lemma key_set_ResInfo_Index x r : key (set_ResInfo_Index x r) = key r.
Proof. reflexivity. Qed.

Lemma fmap_key_alter x (idx : nat) (v : list RESOLUTION_WHR) :
  key <$> alter (set_ResInfo_Index x) idx v = key <$> v.
Proof.
  rewrite (list_fmap_alter key (set_ResInfo_Index x) id).
  - now rewrite list_alter_id.
  - apply Forall_forall. intros r _. apply key_set_ResInfo_Index.
Qed.

Lemma key_new_entry settings addindex :
  mask_in_range ->
  key (new_entry settings addindex) = info_key (GetResolutionInfo settings addindex).
Proof.
  intros MODEMASK_range. unfold key, new_entry, info_key. simpl.
  now rewrite mode_bits_idem.
Qed.

(** The entries after the first keep pairwise distinct keys. *)
Lemma AddResolution_unique settings resolutions addindex bestRefreshrate :
  mask_in_range ->
  unique_keys (drop 1 resolutions) ->
  unique_keys (drop 1 (AddResolution settings resolutions addindex bestRefreshrate)).
Proof.
  intros MODEMASK_range. rewrite !unique_keys_NoDup. intros Hinv. unfold AddResolution.
  destruct (AddResolution_match _ _ _ 1 (drop 1 resolutions)) as [idx|] eqn:Hm.
  - destruct (_ && _); [|exact Hinv].
    now rewrite fmap_drop, fmap_key_alter, <- fmap_drop.
  - destruct resolutions as [|b rest]; [constructor|].
    simpl in *. rewrite drop_0 in *. rewrite fmap_app.
    apply NoDup_app. split; [exact Hinv|]. split; [|apply NoDup_singleton].
    intros k (r & -> & Hr)%list_elem_of_fmap Hk.
    apply list_elem_of_singleton in Hk.
    pose proof (proj1 (AddResolution_match_None _ _ _ _ _) Hm r Hr) as Hno.
    assert (Hyes : same_mode (iScreenWidth (GetResolutionInfo settings addindex))
                     (iScreenHeight (GetResolutionInfo settings addindex))
                     (to_int (mode_bits (dwFlags (GetResolutionInfo settings addindex)))) r
                   = true).
    { apply same_mode_key. rewrite Hk.
      apply (key_new_entry settings addindex MODEMASK_range). }
    congruence.
Qed.

(** The first entry, once there, is never touched. *)
Lemma AddResolution_head settings resolutions addindex bestRefreshrate b :
  resolutions !! 0%nat = Some b ->
  AddResolution settings resolutions addindex bestRefreshrate !! 0%nat = Some b.
Proof.
  intros Hb. unfold AddResolution.
  destruct (AddResolution_match _ _ _ 1 (drop 1 resolutions)) as [idx|] eqn:Hm.
  - destruct (_ && _); [|exact Hb].
    apply AddResolution_match_Some in Hm as [Hle _].
    rewrite list_lookup_alter_ne by lia. exact Hb.
  - now apply lookup_app_l_Some.
Qed.

Lemma AddResolution_nil settings addindex bestRefreshrate :
  AddResolution settings [] addindex bestRefreshrate = [new_entry settings addindex].
Proof. reflexivity. Qed.

Lemma foldl_AddResolution_unique settings refreshrate idxs v :
  mask_in_range ->
  unique_keys (drop 1 v) ->
  unique_keys (drop 1 (foldl (fun resolutions idx =>
                 AddResolution settings resolutions idx refreshrate) v idxs)).
Proof.
  intros MODEMASK_range.
  revert v. induction idxs as [|i idxs IH]; intros v Hv; simpl; [exact Hv|].
  apply IH. now apply AddResolution_unique.
Qed.

Lemma foldl_AddResolution_head settings refreshrate idxs v b :
  v !! 0%nat = Some b ->
  foldl (fun resolutions idx =>
           AddResolution settings resolutions idx refreshrate) v idxs !! 0%nat = Some b.
Proof.
  revert v. induction idxs as [|i idxs IH]; intros v Hv; simpl; [exact Hv|].
  apply IH. now apply AddResolution_head.
Qed.

Lemma ScreenResolutions_loop_unique settings refreshrate :
  mask_in_range ->
  unique_keys (drop 1 (ScreenResolutions_loop settings refreshrate)).
Proof.
  intros MODEMASK_range.
  apply foldl_AddResolution_unique; [exact MODEMASK_range|]. simpl. apply unique_keys_NoDup. constructor.
Qed.

Lemma ScreenResolutions_loop_head settings refreshrate b :
  ScreenResolutions_loop settings refreshrate !! 0%nat = Some b ->
  b = new_entry settings RES_CUSTOM.
Proof.
  unfold ScreenResolutions_loop.
  destruct (ResolutionInfoSize settings - RES_CUSTOM)%nat as [|n]; [discriminate|].
  simpl. rewrite AddResolution_nil.
  rewrite (foldl_AddResolution_head settings refreshrate _
             [new_entry settings RES_CUSTOM] (new_entry settings RES_CUSTOM))
    by reflexivity.
  now intros [= <-].
Qed.

(** *** The catalogue *)

(** How far the keys of the returned vector are unique. The scan of
    [AddResolution] starts at position 1 under the comment
    [don't touch RES_DESKTOP], but [ScreenResolutions] starts from an empty
    vector at [RES_CUSTOM]: position 0 holds the first custom mode, which is
    therefore never compared. The mask being a non-negative [int] value, the
    entries after that one share no key among themselves; whether one of
    them shares the key of the first is decided by the store
    ([ScreenResolutions_first_not_compared]). *)
Lemma ScreenResolutions_unique_beyond_first settings refreshrate :
  0 <= D3DPRESENTFLAG_MODEMASK < 2 ^ 31 ->
  exists first others,
    ScreenResolutions settings refreshrate ≡ₚ first ++ others
    /\ (first = [] \/ first = [new_entry settings RES_CUSTOM])
    /\ unique_keys others.
Proof.
  intros MODEMASK_range.
  exists (take 1 (ScreenResolutions_loop settings refreshrate)),
         (drop 1 (ScreenResolutions_loop settings refreshrate)).
  split; [|split].
  - rewrite take_drop. apply std_sort_Permutation.
  - pose proof (ScreenResolutions_loop_head settings refreshrate) as Hhead.
    destruct (ScreenResolutions_loop settings refreshrate) as [|b v]; [now left|].
    right. simpl. rewrite take_0. now rewrite (Hhead b eq_refl).
  - now apply ScreenResolutions_loop_unique.
Qed.

(** The returned vector is sorted by [resSortPredicate]. *)
#[local] Instance not_after_resSortPredicate_trans :
  Transitive (not_after resSortPredicate).
Proof.
  intros x y z. unfold not_after. rewrite !resSortPredicate_false.
  unfold whf_lt. lia.
Qed.

#[local] Instance not_after_resSortPredicate_total :
  Total (not_after resSortPredicate).
Proof.
  intros x y. unfold not_after. rewrite !resSortPredicate_false.
  unfold whf_lt. lia.
Qed.

Lemma ScreenResolutions_sorted settings refreshrate :
  StronglySorted (not_after resSortPredicate)
                 (ScreenResolutions settings refreshrate).
Proof. apply StronglySorted_merge_sort; apply _. Qed.

(** The three records of the example: 1920x1080, no flags, at 60.0, 59.94
    and 60.0 Hz. *)
Definition mode_1080 (rate : F32.float) : RESOLUTION_INFO :=
  {| iScreenWidth := 1920; iScreenHeight := 1080; dwFlags := 0;
     fRefreshRate := rate |}.

Definition three_1080 : list RESOLUTION_INFO :=
  [mode_1080 F32.f60; mode_1080 F32.f59_94; mode_1080 F32.f60].

Lemma settings_of_vector_scan head records empty k :
  length head = RES_CUSTOM ->
  GetResolutionInfo (settings_of_vector (head ++ records) empty) (RES_CUSTOM + k)
  = default empty (records !! k).
Proof.
  intros <-. simpl. rewrite lookup_app_r by lia.
  now replace (length head + k - length head)%nat with k by lia.
Qed.

(** C4. With the records (1920,1080,0,60.0), (1920,1080,0,59.94),
    (1920,1080,0,60.0) as the scanned ones and 59.94 as preferred rate, the
    dedup yields the entry of the first record at position 0 and exactly one
    entry after it, whose index is that of the 59.94 record; the returned
    vector holds these two entries. *)
Theorem dedup_three_1080 head empty :
  length head = RES_CUSTOM ->
  let settings := settings_of_vector (head ++ three_1080) empty in
  ScreenResolutions_loop settings F32.f59_94 =
    [ {| width := 1920; height := 1080; flags := 0;
         ResInfo_Index := to_int (Z.of_nat RES_CUSTOM) |};
      {| width := 1920; height := 1080; flags := 0;
         ResInfo_Index := to_int (Z.of_nat (RES_CUSTOM + 1)) |} ]
  /\ ScreenResolutions settings F32.f59_94 ≡ₚ
    [ {| width := 1920; height := 1080; flags := 0;
         ResInfo_Index := to_int (Z.of_nat RES_CUSTOM) |};
      {| width := 1920; height := 1080; flags := 0;
         ResInfo_Index := to_int (Z.of_nat (RES_CUSTOM + 1)) |} ].
Proof.
  intros Hlen settings.
  assert (Hloop : ScreenResolutions_loop settings F32.f59_94 =
    [ {| width := 1920; height := 1080; flags := 0;
         ResInfo_Index := to_int (Z.of_nat RES_CUSTOM) |};
      {| width := 1920; height := 1080; flags := 0;
         ResInfo_Index := to_int (Z.of_nat (RES_CUSTOM + 1)) |} ]).
  { unfold ScreenResolutions_loop.
    replace (ResolutionInfoSize settings - RES_CUSTOM)%nat with 3%nat
      by (subst settings; simpl; rewrite length_app; simpl; lia).
    pose proof (settings_of_vector_scan head three_1080 empty 0 Hlen) as H0.
    pose proof (settings_of_vector_scan head three_1080 empty 1 Hlen) as H1.
    pose proof (settings_of_vector_scan head three_1080 empty 2 Hlen) as H2.
    rewrite Nat.add_0_r in H0. fold settings in H0, H1, H2.
    simpl seq. unfold foldl, AddResolution.
    replace (S RES_CUSTOM) with (RES_CUSTOM + 1)%nat by lia.
    replace (S (RES_CUSTOM + 1)) with (RES_CUSTOM + 2)%nat by lia.
    rewrite H0, H1, H2. reflexivity. }
  split; [exact Hloop|].
  unfold ScreenResolutions. rewrite Hloop. apply std_sort_Permutation.
Qed.

(** The first entry is never compared: when the first two scanned records
    have the same mode, both get an entry, whatever the constants are. *)
Lemma ScreenResolutions_first_not_compared head empty refreshrate :
  length head = RES_CUSTOM ->
  ~ unique_keys
      (ScreenResolutions
         (settings_of_vector (head ++ [mode_1080 F32.f60; mode_1080 F32.f60]) empty)
         refreshrate).
Proof.
  intros Hlen.
  set (settings := settings_of_vector (head ++ _) empty).
  assert (Hloop : ScreenResolutions_loop settings refreshrate =
    [ {| width := 1920; height := 1080; flags := 0;
         ResInfo_Index := to_int (Z.of_nat RES_CUSTOM) |};
      {| width := 1920; height := 1080; flags := 0;
         ResInfo_Index := to_int (Z.of_nat (RES_CUSTOM + 1)) |} ]).
  { unfold ScreenResolutions_loop.
    replace (ResolutionInfoSize settings - RES_CUSTOM)%nat with 2%nat
      by (subst settings; simpl; rewrite length_app; simpl; lia).
    pose proof (settings_of_vector_scan head
                  [mode_1080 F32.f60; mode_1080 F32.f60] empty 0 Hlen) as H0.
    pose proof (settings_of_vector_scan head
                  [mode_1080 F32.f60; mode_1080 F32.f60] empty 1 Hlen) as H1.
    rewrite Nat.add_0_r in H0. fold settings in H0, H1.
    simpl seq. unfold foldl, AddResolution.
    replace (S RES_CUSTOM) with (RES_CUSTOM + 1)%nat by lia.
    rewrite H0, H1. reflexivity. }
  rewrite unique_keys_NoDup. unfold ScreenResolutions.
  rewrite std_sort_Permutation, Hloop. simpl.
  intros Hnd. apply NoDup_cons in Hnd as [Hnotin _]. apply Hnotin. left.
Qed.

(** ** The refresh-rate collector *)

(** The loop of [AddRefreshRate]: some kept entry has exactly this rate. *)
Definition AddRefreshRate_taken (RefreshRate_ : F32.float)
    (refreshrates : list REFRESHRATE) : bool :=
  existsb (fun rr => F32.eqb (RefreshRate rr) RefreshRate_) refreshrates.

Definition AddRefreshRate (settings : DisplaySettings)
    (refreshrates : list REFRESHRATE) (addindex : nat) : list REFRESHRATE :=
  let RefreshRate_ := fRefreshRate (GetResolutionInfo settings addindex) in
  if AddRefreshRate_taken RefreshRate_ refreshrates
  then refreshrates (* already taken care of *)
  else refreshrates ++
         [ {| RefreshRate := RefreshRate_;
              RR_ResInfo_Index := to_int (Z.of_nat addindex) |} ].

Definition rrSortPredicate (i j : REFRESHRATE) : bool :=
  F32.ltb (RefreshRate i) (RefreshRate j).

(** The condition of the loop body of [RefreshRates] on the record at
    [idx]. *)
Definition mode_is (settings : DisplaySettings) (w h dw : Z) (idx : nat) : bool :=
  (iScreenWidth (GetResolutionInfo settings idx) =? w)
  && (iScreenHeight (GetResolutionInfo settings idx) =? h)
  && (mode_bits (dwFlags (GetResolutionInfo settings idx)) =? mode_bits dw).

Definition RefreshRates_step (settings : DisplaySettings) (w h dw : Z)
    (refreshrates : list REFRESHRATE) (idx : nat) : list REFRESHRATE :=
  if mode_is settings w h dw idx
  then AddRefreshRate settings refreshrates idx
  else refreshrates.

(** The loop of [RefreshRates], before the sort. *)
Definition RefreshRates_loop (settings : DisplaySettings) (w h dw : Z)
    : list REFRESHRATE :=
  foldl (RefreshRates_step settings w h dw) []
        (seq RES_DESKTOP (ResolutionInfoSize settings - RES_DESKTOP)).

Definition RefreshRates (settings : DisplaySettings) (w h dw : Z)
    : list REFRESHRATE :=
  std_sort rrSortPredicate (RefreshRates_loop settings w h dw).

(** The rate of the record at [idx] and the entry made of it. *)
Definition rate_of (settings : DisplaySettings) (idx : nat) : F32.float :=
  fRefreshRate (GetResolutionInfo settings idx).

Definition rate_entry (settings : DisplaySettings) (idx : nat) : REFRESHRATE :=
  {| RefreshRate := rate_of settings idx;
     RR_ResInfo_Index := to_int (Z.of_nat idx) |}.

(** The record at [idx] is scanned by [RefreshRates] and has the target
    mode. *)
Definition selected (settings : DisplaySettings) (w h dw : Z) (idx : nat) : Prop :=
  (RES_DESKTOP <= idx < ResolutionInfoSize settings)%nat
  /\ iScreenWidth (GetResolutionInfo settings idx) = w
  /\ iScreenHeight (GetResolutionInfo settings idx) = h
  /\ mode_bits (dwFlags (GetResolutionInfo settings idx)) = mode_bits dw.

(** No two entries of [v] have exactly equal rates. *)
Definition distinct_rates (v : list REFRESHRATE) : Prop :=
  forall i j a b, v !! i = Some a -> v !! j = Some b ->
                  F32.eqb (RefreshRate a) (RefreshRate b) = true -> i = j.

Lemma mode_is_true settings w h dw idx :
  mode_is settings w h dw idx = true <->
  iScreenWidth (GetResolutionInfo settings idx) = w
  /\ iScreenHeight (GetResolutionInfo settings idx) = h
  /\ mode_bits (dwFlags (GetResolutionInfo settings idx)) = mode_bits dw.
Proof. unfold mode_is. rewrite !andb_true_iff, !Z.eqb_eq. tauto. Qed.

Lemma AddRefreshRate_taken_true x (v : list REFRESHRATE) :
  AddRefreshRate_taken x v = true <->
  exists rr, rr ∈ v /\ F32.eqb (RefreshRate rr) x = true.
Proof.
  unfold AddRefreshRate_taken. rewrite existsb_exists.
  split; intros (rr & Hin & Heq); exists rr; split; auto;
    now apply list_elem_of_In.
Qed.

Lemma AddRefreshRate_taken_false x (v : list REFRESHRATE) :
  AddRefreshRate_taken x v = false <->
  forall rr, rr ∈ v -> F32.eqb (RefreshRate rr) x = false.
Proof.
  rewrite <- not_true_iff_false, AddRefreshRate_taken_true. split.
  - intros H rr Hin. apply not_true_is_false. intros Heq. apply H. eauto.
  - intros H (rr & Hin & Heq). rewrite (H rr Hin) in Heq. discriminate.
Qed.

(** The vector of [RefreshRates] after [n] rounds of its loop. *)
Definition RefreshRates_rounds (settings : DisplaySettings) (w h dw : Z)
    (n : nat) : list REFRESHRATE :=
  foldl (RefreshRates_step settings w h dw) [] (seq RES_DESKTOP n).

Lemma RefreshRates_rounds_S settings w h dw n :
  RefreshRates_rounds settings w h dw (S n) =
  RefreshRates_step settings w h dw (RefreshRates_rounds settings w h dw n)
                    (RES_DESKTOP + n).
Proof. unfold RefreshRates_rounds. now rewrite seq_S, foldl_app. Qed.

(** What holds of the vector [v] after the records below [RES_DESKTOP + n]
    have been scanned. *)
Record RefreshRates_inv (settings : DisplaySettings) (w h dw : Z) (n : nat)
    (v : list REFRESHRATE) : Prop := {
  (* every entry is the entry of a scanned record with the target mode, and
     of the first one with its rate *)
  inv_sound : forall rr, rr ∈ v ->
    exists idx, (RES_DESKTOP <= idx < RES_DESKTOP + n)%nat
      /\ mode_is settings w h dw idx = true
      /\ rr = rate_entry settings idx
      /\ forall idx', (RES_DESKTOP <= idx' < idx)%nat ->
            mode_is settings w h dw idx' = true ->
            F32.eqb (rate_of settings idx') (rate_of settings idx) = false;
  (* every scanned record with the target mode has its entry in the vector
     or has the rate of an earlier one whose entry is there *)
  inv_complete : forall idx, (RES_DESKTOP <= idx < RES_DESKTOP + n)%nat ->
    mode_is settings w h dw idx = true ->
    rate_entry settings idx ∈ v
    \/ exists idx', (RES_DESKTOP <= idx' < idx)%nat
         /\ mode_is settings w h dw idx' = true
         /\ F32.eqb (rate_of settings idx') (rate_of settings idx) = true
         /\ rate_entry settings idx' ∈ v;
  inv_distinct : distinct_rates v
}.

Lemma RefreshRates_inv_0 settings w h dw : RefreshRates_inv settings w h dw 0 [].
Proof.
  split.
  - intros rr Hin. inversion Hin.
  - intros idx Hidx. lia.
  - intros i j a b Ha. discriminate.
Qed.

Lemma RefreshRates_inv_skip settings w h dw n v :
  mode_is settings w h dw (RES_DESKTOP + n) = false ->
  RefreshRates_inv settings w h dw n v ->
  RefreshRates_inv settings w h dw (S n) v.
Proof.
  intros Hno [Hs Hc Hd]. split; [| |exact Hd].
  - intros rr Hin. destruct (Hs rr Hin) as (idx & Hidx & H). exists idx.
    split; [lia | exact H].
  - intros idx Hidx Hm. apply Hc; [|exact Hm].
    destruct (decide (idx = RES_DESKTOP + n)%nat) as [->|]; [congruence | lia].
Qed.

Lemma RefreshRates_inv_dropped settings w h dw n v :
  mode_is settings w h dw (RES_DESKTOP + n) = true ->
  AddRefreshRate_taken (rate_of settings (RES_DESKTOP + n)) v = true ->
  RefreshRates_inv settings w h dw n v ->
  RefreshRates_inv settings w h dw (S n) v.
Proof.
  intros Hyes (rr & Hin & Heq)%AddRefreshRate_taken_true [Hs Hc Hd].
  split; [| |exact Hd].
  - intros rr' Hin'. destruct (Hs rr' Hin') as (idx & Hidx & H). exists idx.
    split; [lia | exact H].
  - intros idx Hidx Hm.
    destruct (decide (idx = RES_DESKTOP + n)%nat) as [->|Hne].
    + right. destruct (Hs rr Hin) as (idx' & Hidx' & Hm' & -> & _).
      exists idx'. auto.
    + apply Hc; [lia | exact Hm].
Qed.

Lemma RefreshRates_inv_added settings w h dw n v :
  mode_is settings w h dw (RES_DESKTOP + n) = true ->
  AddRefreshRate_taken (rate_of settings (RES_DESKTOP + n)) v = false ->
  RefreshRates_inv settings w h dw n v ->
  RefreshRates_inv settings w h dw (S n)
    (v ++ [rate_entry settings (RES_DESKTOP + n)]).
Proof.
  intros Hyes Hfree [Hs Hc Hd].
  pose proof (proj1 (AddRefreshRate_taken_false _ _) Hfree) as Hfresh.
  split.
  - intros rr [Hin|Hin%list_elem_of_singleton]%elem_of_app.
    + destruct (Hs rr Hin) as (idx & Hidx & H). exists idx. split; [lia | exact H].
    + exists (RES_DESKTOP + n)%nat. split; [lia|]. split; [exact Hyes|].
      split; [exact Hin|]. intros idx' Hidx' Hm'.
      apply not_true_is_false. intros Heq.
      destruct (Hc idx' ltac:(lia) Hm') as [Hkept|(i0 & _ & _ & Heq0 & Hkept)].
      * pose proof (Hfresh _ Hkept) as Hf. simpl in Hf. congruence.
      * pose proof (Hfresh _ Hkept) as Hf. simpl in Hf.
        pose proof (F32.eqb_trans _ _ _ Heq0 Heq). congruence.
  - intros idx Hidx Hm.
    destruct (decide (idx = RES_DESKTOP + n)%nat) as [->|Hne].
    + left. apply elem_of_app. right. now apply list_elem_of_singleton.
    + destruct (Hc idx ltac:(lia) Hm) as [Hkept|(i0 & H1 & H2 & H3 & Hkept)].
      * left. apply elem_of_app. now left.
      * right. exists i0. repeat split; try tauto. apply elem_of_app. now left.
  - intros i j a b Ha Hb Heq.
    destruct (decide (i < length v)%nat) as [Hi|Hi],
             (decide (j < length v)%nat) as [Hj|Hj].
    + rewrite lookup_app_l in Ha, Hb by assumption. eauto.
    + rewrite lookup_app_l in Ha by assumption.
      rewrite lookup_app_r in Hb by lia.
      apply list_lookup_singleton_Some in Hb as [_ <-].
      apply list_elem_of_lookup_2 in Ha. pose proof (Hfresh _ Ha) as Hf.
      simpl in Heq. congruence.
    + rewrite lookup_app_l in Hb by assumption.
      rewrite lookup_app_r in Ha by lia.
      apply list_lookup_singleton_Some in Ha as [_ <-].
      apply list_elem_of_lookup_2 in Hb. pose proof (Hfresh _ Hb) as Hf.
      rewrite F32.eqb_sym in Heq. simpl in Heq. congruence.
    + rewrite lookup_app_r in Ha, Hb by lia.
      apply list_lookup_singleton_Some in Ha as [Hi0 _].
      apply list_lookup_singleton_Some in Hb as [Hj0 _]. lia.
Qed.

Lemma RefreshRates_rounds_inv settings w h dw n :
  RefreshRates_inv settings w h dw n (RefreshRates_rounds settings w h dw n).
Proof.
  induction n as [|n IH]; [apply RefreshRates_inv_0|].
  rewrite RefreshRates_rounds_S. unfold RefreshRates_step, AddRefreshRate.
  destruct (mode_is settings w h dw (RES_DESKTOP + n)) eqn:Hm.
  - fold (rate_of settings (RES_DESKTOP + n)).
    destruct (AddRefreshRate_taken _ _) eqn:Ht.
    + now apply RefreshRates_inv_dropped.
    + now apply RefreshRates_inv_added.
  - now apply RefreshRates_inv_skip.
Qed.

Lemma foldl_ext_in {A B : Type} (f g : A -> B -> A) (l : list B) (a : A) :
  (forall a' x, x ∈ l -> f a' x = g a' x) -> foldl f a l = foldl g a l.
Proof.
  revert a. induction l as [|x l IH]; intros a H; simpl; [reflexivity|].
  rewrite (H a x) by left. apply IH. intros a' y Hy. apply H. now right.
Qed.

(** The loop reads the records from [RES_DESKTOP] onward only. *)
Lemma RefreshRates_loop_ext settings settings' w h dw :
  ResolutionInfoSize settings' = ResolutionInfoSize settings ->
  (forall idx, (RES_DESKTOP <= idx)%nat ->
     GetResolutionInfo settings' idx = GetResolutionInfo settings idx) ->
  RefreshRates_loop settings' w h dw = RefreshRates_loop settings w h dw.
Proof.
  intros Hsize Hsame. unfold RefreshRates_loop. rewrite Hsize.
  apply foldl_ext_in. intros v idx [Hidx _]%elem_of_seq.
  unfold RefreshRates_step, AddRefreshRate, mode_is.
  now rewrite (Hsame idx Hidx).
Qed.

Lemma RefreshRates_loop_rounds settings w h dw :
  RefreshRates_loop settings w h dw =
  RefreshRates_rounds settings w h dw (ResolutionInfoSize settings - RES_DESKTOP).
Proof. reflexivity. Qed.

(** C7. [RefreshRates] returns, up to the order the sort gives them, the
    entries [v] its scan collects, and:
    - every returned entry holds the rate and the index of a record that is
      at [RES_DESKTOP] or later and has exactly the target width, height and
      masked flags, and no such record scanned before it has an exactly
      equal rate;
    - every such record has its own entry returned, or has a rate exactly
      equal to that of an earlier such record whose entry is returned;
    - no two collected entries have exactly equal rates, and neither have
      two different returned ones;
    - records below [RES_DESKTOP] are never read, so that index 0 is not
      scanned when the desktop mode is not at index 0. *)
Theorem RefreshRates_collects settings w h dw :
  let v := RefreshRates_loop settings w h dw in
  RefreshRates settings w h dw ≡ₚ v
  /\ (forall rr, rr ∈ RefreshRates settings w h dw ->
        exists idx, selected settings w h dw idx
          /\ rr = {| RefreshRate := fRefreshRate (GetResolutionInfo settings idx);
                     RR_ResInfo_Index := to_int (Z.of_nat idx) |}
          /\ forall idx', selected settings w h dw idx' -> (idx' < idx)%nat ->
                F32.eqb (rate_of settings idx') (rate_of settings idx) = false)
  /\ (forall idx, selected settings w h dw idx ->
        rate_entry settings idx ∈ RefreshRates settings w h dw
        \/ exists idx', selected settings w h dw idx' /\ (idx' < idx)%nat
             /\ F32.eqb (rate_of settings idx') (rate_of settings idx) = true
             /\ rate_entry settings idx' ∈ RefreshRates settings w h dw)
  /\ distinct_rates v
  /\ (forall a b, a ∈ RefreshRates settings w h dw ->
                  b ∈ RefreshRates settings w h dw ->
                  F32.eqb (RefreshRate a) (RefreshRate b) = true -> a = b)
  /\ (forall settings',
        ResolutionInfoSize settings' = ResolutionInfoSize settings ->
        (forall idx, (RES_DESKTOP <= idx)%nat ->
           GetResolutionInfo settings' idx = GetResolutionInfo settings idx) ->
        RefreshRates settings' w h dw = RefreshRates settings w h dw)
  /\ ((0 < RES_DESKTOP)%nat ->
      forall settings',
        ResolutionInfoSize settings' = ResolutionInfoSize settings ->
        (forall idx, idx <> 0%nat ->
           GetResolutionInfo settings' idx = GetResolutionInfo settings idx) ->
        RefreshRates settings' w h dw = RefreshRates settings w h dw).
Proof.
  intros v.
  assert (Hperm : RefreshRates settings w h dw ≡ₚ v) by apply std_sort_Permutation.
  destruct (RefreshRates_rounds_inv settings w h dw
              (ResolutionInfoSize settings - RES_DESKTOP)) as [Hs Hc Hd].
  rewrite <- RefreshRates_loop_rounds in Hs, Hc, Hd. fold v in Hs, Hc, Hd.
  assert (Hsel : forall idx, selected settings w h dw idx <->
            (RES_DESKTOP <= idx < RES_DESKTOP + (ResolutionInfoSize settings - RES_DESKTOP))%nat
            /\ mode_is settings w h dw idx = true).
  { intros idx. unfold selected. rewrite mode_is_true. intuition lia. }
  split; [exact Hperm|]. split; [|split; [|split; [exact Hd|split; [|split]]]].
  - intros rr Hin. rewrite Hperm in Hin.
    destruct (Hs rr Hin) as (idx & Hidx & Hm & -> & Hfirst).
    exists idx. split; [apply Hsel; auto|]. split; [reflexivity|].
    intros idx' [Hidx' Hm']%Hsel Hlt. apply Hfirst; [lia | exact Hm'].
  - intros idx [Hidx Hm]%Hsel. setoid_rewrite Hperm.
    destruct (Hc idx Hidx Hm) as [Hin|(idx' & Hidx' & Hm' & Heq & Hin)]; [now left|].
    right. exists idx'. split; [apply Hsel; split; [lia | exact Hm']|].
    split; [lia|]. split; [exact Heq | exact Hin].
  - intros a b Ha Hb Heq. rewrite Hperm in Ha, Hb.
    apply list_elem_of_lookup in Ha as [i Hi], Hb as [j Hj].
    pose proof (Hd i j a b Hi Hj Heq) as ->. congruence.
  - intros settings' Hsize Hsame. unfold RefreshRates.
    now rewrite (RefreshRates_loop_ext settings settings').
  - intros Hpos settings' Hsize Hsame. unfold RefreshRates.
    rewrite (RefreshRates_loop_ext settings settings'); auto.
    intros idx Hidx. apply Hsame. lia.
Qed.

(** ** The refresh-rate selector *)

(** [fabs(targetfps - rates[i].RefreshRate)]. *)
Definition fitness (targetfps : F32.float) (r : REFRESHRATE) : F32.float :=
  F32.fabs (F32.sub targetfps (RefreshRate r)).

(** The loop of [DefaultRefreshRate] over the entries [rest] still to be
    visited. *)
Fixpoint DefaultRefreshRate_loop (targetfps : F32.float)
    (rest : list REFRESHRATE) (bestfitness : F32.float)
    (bestmatch : REFRESHRATE) : REFRESHRATE :=
  match rest with
  | [] => bestmatch
  | r :: rest' =>
      let fitness_ := fitness targetfps r in
      if F32.ltb bestfitness F32.zero || F32.ltb fitness_ bestfitness
      then
        if F32.eqb fitness_ F32.zero
        then r (* perfect match: break *)
        else DefaultRefreshRate_loop targetfps rest' fitness_ r
      else DefaultRefreshRate_loop targetfps rest' bestfitness bestmatch
  end.

Definition DefaultRefreshRate (settings : DisplaySettings)
    (rates : list REFRESHRATE) : outcome REFRESHRATE :=
  match rates !! 0%nat with
  | None => Undefined (* rates[0] of an empty vector *)
  | Some bestmatch =>
      let bestfitness := F32.minus_one in
      let targetfps := fRefreshRate (GetResolutionInfo settings RES_DESKTOP) in
      Returns (DefaultRefreshRate_loop targetfps rates bestfitness bestmatch)
  end.

(** [best], at position [i] of [l], is a nearest entry of [l] and the
    earliest one of its fitness: no entry has a smaller fitness and no
    entry before position [i] has an equal one. *)
Definition nearest (targetfps : F32.float) (l : list REFRESHRATE) (i : nat)
    (best : REFRESHRATE) : Prop :=
  l !! i = Some best
  /\ (forall r, r ∈ l ->
        F32.ltb (fitness targetfps r) (fitness targetfps best) = false)
  /\ (forall j r, (j < i)%nat -> l !! j = Some r ->
        F32.eqb (fitness targetfps r) (fitness targetfps best) = false).

Lemma fitness_not_neg t r : F32.ltb (fitness t r) F32.zero = false.
Proof. apply F32.fabs_not_neg. Qed.

Lemma fitness_not_below_zero t r z :
  F32.eqb z F32.zero = true -> F32.ltb (fitness t r) z = false.
Proof.
  intros Hz. apply not_true_is_false. intros Hlt.
  pose proof (F32.ltb_eqb_trans _ _ _ Hlt Hz) as H0.
  now rewrite fitness_not_neg in H0.
Qed.

Lemma nearest_keep t l i best r :
  nearest t l i best ->
  F32.ltb (fitness t r) (fitness t best) = false ->
  nearest t (l ++ [r]) i best.
Proof.
  intros (Hi & Hmin & Hfirst) Hr. split; [|split].
  - now apply lookup_app_l_Some.
  - intros r' [Hin|Hin%list_elem_of_singleton]%elem_of_app; [auto | now subst].
  - intros j r' Hj Hr'. apply (Hfirst j r' Hj).
    rewrite lookup_app_l in Hr'; [exact Hr'|].
    apply lookup_lt_Some in Hi. lia.
Qed.

Lemma nearest_replace t l i best r :
  nearest t l i best ->
  F32.ltb (fitness t r) (fitness t best) = true ->
  nearest t (l ++ [r]) (length l) r.
Proof.
  intros (Hi & Hmin & Hfirst) Hr. split; [|split].
  - rewrite lookup_app_r by lia. now rewrite Nat.sub_diag.
  - intros r' [Hin|Hin%list_elem_of_singleton]%elem_of_app.
    + apply not_true_is_false. intros Hlt.
      pose proof (F32.ltb_trans _ _ _ Hlt Hr) as Hbad.
      now rewrite (Hmin r' Hin) in Hbad.
    + subst. apply F32.ltb_irrefl.
  - intros j r' Hj Hr'. rewrite lookup_app_l in Hr' by exact Hj.
    apply not_true_is_false. intros Heq.
    pose proof (F32.eqb_ltb_trans _ _ _ Heq Hr) as Hbad.
    now rewrite (Hmin r' (list_elem_of_lookup_2 _ _ _ Hr')) in Hbad.
Qed.

(** After a perfect match nothing that follows can be nearer. *)
Lemma nearest_perfect t l i best rest :
  nearest t l i best ->
  F32.eqb (fitness t best) F32.zero = true ->
  nearest t (l ++ rest) i best.
Proof.
  intros (Hi & Hmin & Hfirst) Hz. split; [|split].
  - now apply lookup_app_l_Some.
  - intros r' [Hin|Hin]%elem_of_app; [auto|].
    now apply fitness_not_below_zero.
  - intros j r' Hj Hr'. apply (Hfirst j r' Hj).
    rewrite lookup_app_l in Hr'; [exact Hr'|].
    apply lookup_lt_Some in Hi. lia.
Qed.

Lemma DefaultRefreshRate_loop_nearest t rest :
  forall visited i bestmatch,
    nearest t visited i bestmatch ->
    exists i' best,
      DefaultRefreshRate_loop t rest (fitness t bestmatch) bestmatch = best
      /\ nearest t (visited ++ rest) i' best.
Proof.
  induction rest as [|r rest IH]; intros visited i bestmatch Hbest; simpl.
  - exists i, bestmatch. now rewrite app_nil_r.
  - rewrite fitness_not_neg. simpl.
    replace (visited ++ r :: rest) with ((visited ++ [r]) ++ rest)
      by now rewrite <- app_assoc.
    destruct (F32.ltb (fitness t r) (fitness t bestmatch)) eqn:Hlt.
    + pose proof (nearest_replace _ _ _ _ _ Hbest Hlt) as Hnew.
      destruct (F32.eqb (fitness t r) F32.zero) eqn:Hz.
      * exists (length visited), r. split; [reflexivity|].
        now apply nearest_perfect.
      * apply (IH _ _ _ Hnew).
    + apply (IH _ i). now apply nearest_keep.
Qed.

Lemma nearest_singleton t r : nearest t [r] 0 r.
Proof.
  split; [reflexivity|]. split.
  - intros r' ->%list_elem_of_singleton. apply F32.ltb_irrefl.
  - intros j r' Hj. lia.
Qed.

Lemma DefaultRefreshRate_returns_nearest settings r0 rest :
  exists i best,
    DefaultRefreshRate settings (r0 :: rest) = Returns best
    /\ nearest (fRefreshRate (GetResolutionInfo settings RES_DESKTOP)) (r0 :: rest) i best.
Proof.
  unfold DefaultRefreshRate. simpl.
  set (t := fRefreshRate (GetResolutionInfo settings RES_DESKTOP)).
  (* the sentinel -1.0f is below zero: the first entry is always taken *)
  destruct (F32.eqb (fitness t r0) F32.zero) eqn:Hz.
  - exists 0%nat, r0. split; [reflexivity|].
    apply (nearest_perfect t [r0] 0 r0 rest); [apply nearest_singleton | exact Hz].
  - destruct (DefaultRefreshRate_loop_nearest t rest [r0] 0%nat r0
                (nearest_singleton t r0)) as (i & best & Hloop & Hbest).
    exists i, best. split; [now rewrite Hloop | exact Hbest].
Qed.

(** C5. On a non-empty vector [DefaultRefreshRate] returns an entry [best]
    of the vector, at some position [i], such that no entry has a fitness
    [|targetfps - rate|] below that of [best] and no entry before position
    [i] has a fitness equal to it: a nearest entry, and the earliest of the
    nearest ones. When no fitness is a NaN this says that the fitness of
    [best] is at most that of every entry. With the entries 50.0 and 55.0
    and the target 52.0 the entry 50.0 is returned. *)
Theorem DefaultRefreshRate_nearest_earliest :
  (forall settings rates,
      rates <> [] ->
      let targetfps := fRefreshRate (GetResolutionInfo settings RES_DESKTOP) in
      exists i best,
        DefaultRefreshRate settings rates = Returns best
        /\ rates !! i = Some best
        /\ (forall r, r ∈ rates ->
              F32.ltb (fitness targetfps r) (fitness targetfps best) = false)
        /\ (forall j r, (j < i)%nat -> rates !! j = Some r ->
              F32.eqb (fitness targetfps r) (fitness targetfps best) = false)
        /\ ((forall r, r ∈ rates -> F32.is_nan (fitness targetfps r) = false) ->
            forall r, r ∈ rates ->
              F32.leb (fitness targetfps best) (fitness targetfps r) = true))
  /\ (forall settings i1 i2,
        fRefreshRate (GetResolutionInfo settings RES_DESKTOP) = F32.f52 ->
        DefaultRefreshRate settings
          [ {| RefreshRate := F32.f50; RR_ResInfo_Index := i1 |};
            {| RefreshRate := F32.f55; RR_ResInfo_Index := i2 |} ]
        = Returns {| RefreshRate := F32.f50; RR_ResInfo_Index := i1 |}).
Proof.
  split.
  - intros settings [|r0 rest] Hne targetfps; [congruence|].
    destruct (DefaultRefreshRate_returns_nearest settings r0 rest)
      as (i & best & Hret & Hi & Hmin & Hfirst).
    exists i, best. repeat split; auto.
    intros Hnan r Hr. apply F32.leb_of_not_ltb; auto.
    apply Hnan. now apply (list_elem_of_lookup_2 _ i).
  - intros settings i1 i2 Ht. unfold DefaultRefreshRate. simpl. rewrite Ht.
    reflexivity.
Qed.

(** C6, as the code has it. The vector must not be empty, and nothing
    checks that it is not: the first element is read at once, as the first
    guess. On the empty vector this read has no defined behaviour, so that
    no result is defined and no error is reported; on a non-empty vector an
    entry is returned, the only one when there is one only. *)
Theorem DefaultRefreshRate_precondition settings :
  DefaultRefreshRate settings [] = Undefined
  /\ (forall r, DefaultRefreshRate settings [] <> Returns r)
  /\ (forall rates e, DefaultRefreshRate settings rates <> Fails e)
  /\ (forall r0, DefaultRefreshRate settings [r0] = Returns r0)
  /\ (forall rates, rates <> [] ->
        exists r, DefaultRefreshRate settings rates = Returns r).
Proof.
  split; [reflexivity|]. split; [discriminate|]. split; [|split].
  - intros rates e. unfold DefaultRefreshRate. now destruct (rates !! 0%nat).
  - intros r0. unfold DefaultRefreshRate. simpl.
    now destruct (F32.eqb (fitness _ r0) F32.zero).
  - intros [|r0 rest] Hne; [congruence|].
    destruct (DefaultRefreshRate_returns_nearest settings r0 rest)
      as (i & best & Hret & _). eauto.
Qed.

(** ** More on the resolution catalogue *)

Lemma StronglySorted_lookup_lt {A : Type} (R : relation A) (l : list A) i j a b :
  StronglySorted R l -> (i < j)%nat ->
  l !! i = Some a -> l !! j = Some b -> R a b.
Proof.
  intros Hs. revert i j. induction Hs as [|x l Hs IH Hall]; intros i j Hij Hi Hj.
  - discriminate.
  - destruct j as [|j]; [lia|]. destruct i as [|i]; simpl in *.
    + injection Hi as <-. rewrite Forall_forall in Hall. apply Hall.
      now apply (list_elem_of_lookup_2 _ j).
    + apply (IH i j); [lia | assumption | assumption].
Qed.

(** X9. The vector [ScreenResolutions] returns is in ascending order of
    width, then height, then flags: of two of its entries the earlier one
    is not greater than the later one. *)
Theorem ScreenResolutions_ascending settings refreshrate i j a b :
  (i < j)%nat ->
  ScreenResolutions settings refreshrate !! i = Some a ->
  ScreenResolutions settings refreshrate !! j = Some b ->
  resSortPredicate b a = false
  /\ (width a < width b
      \/ (width a = width b
          /\ (height a < height b
              \/ (height a = height b /\ flags a <= flags b)))).
Proof.
  intros Hij Hi Hj.
  pose proof (StronglySorted_lookup_lt _ _ i j a b
                (ScreenResolutions_sorted settings refreshrate) Hij Hi Hj) as Hab.
  unfold not_after in Hab. split; [exact Hab|].
  apply resSortPredicate_false in Hab. unfold whf_lt in Hab. lia.
Qed.

(** The vector of [ScreenResolutions] after [n] rounds of its loop. *)
Definition ScreenResolutions_rounds (settings : DisplaySettings)
    (refreshrate : F32.float) (n : nat) : list RESOLUTION_WHR :=
  foldl (fun resolutions idx => AddResolution settings resolutions idx refreshrate)
        [] (seq RES_CUSTOM n).

Lemma ScreenResolutions_rounds_S settings refreshrate n :
  ScreenResolutions_rounds settings refreshrate (S n) =
  AddResolution settings (ScreenResolutions_rounds settings refreshrate n)
                (RES_CUSTOM + n) refreshrate.
Proof. unfold ScreenResolutions_rounds. now rewrite seq_S, foldl_app. Qed.

(** What holds of the vector [v] after the records from [RES_CUSTOM] to
    below [RES_CUSTOM + n] have been added with the preferred rate
    [best]. *)
Record Catalogue_inv (settings : DisplaySettings) (best : F32.float) (n : nat)
    (v : list RESOLUTION_WHR) : Prop := {
  (* every entry is the entry of a scanned record *)
  cat_sound : forall e, e ∈ v ->
    exists idx, (RES_CUSTOM <= idx < RES_CUSTOM + n)%nat
                /\ e = new_entry settings idx;
  (* the first scanned record has the first entry *)
  cat_first : (1 <= n)%nat -> v !! 0%nat = Some (new_entry settings RES_CUSTOM);
  (* every later record has an entry of its key after the first one *)
  cat_complete : forall idx, (RES_CUSTOM < idx < RES_CUSTOM + n)%nat ->
    exists i e, (1 <= i)%nat /\ v !! i = Some e
                /\ key e = info_key (GetResolutionInfo settings idx);
  cat_unique : unique_keys (drop 1 v);
  cat_length : (length v <= n)%nat;
  (* an entry after the first one points at a record of the preferred rate
     when a record of its key, after the first one, has that rate *)
  cat_preferred : F32.ltb F32.zero best = true ->
    forall i e idx, (1 <= i)%nat -> v !! i = Some e ->
      (RES_CUSTOM < idx < RES_CUSTOM + n)%nat ->
      info_key (GetResolutionInfo settings idx) = key e ->
      F32.eqb (fRefreshRate (GetResolutionInfo settings idx)) best = true ->
      exists idx', (RES_CUSTOM < idx' < RES_CUSTOM + n)%nat
                   /\ e = new_entry settings idx'
                   /\ F32.eqb (fRefreshRate (GetResolutionInfo settings idx')) best = true
}.

Lemma Catalogue_inv_0 settings best : Catalogue_inv settings best 0 [].
Proof.
  split.
  - intros e He. inversion He.
  - lia.
  - intros idx Hidx. lia.
  - apply unique_keys_NoDup. constructor.
  - simpl. lia.
  - intros _ i e idx _ Hi. discriminate.
Qed.

Lemma same_mode_info_key settings addindex r :
  matches settings addindex r = true <->
  key r = info_key (GetResolutionInfo settings addindex).
Proof. unfold matches, info_key. apply same_mode_key. Qed.

(** The entry that takes the index of a matching record is the entry of
    that record. *)
Lemma set_ResInfo_Index_new_entry settings addindex idx0 :
  mask_in_range ->
  matches settings addindex (new_entry settings idx0) = true ->
  set_ResInfo_Index (to_int (Z.of_nat addindex)) (new_entry settings idx0)
  = new_entry settings addindex.
Proof.
  intros Hmask Hm. apply same_mode_info_key in Hm.
  rewrite key_new_entry in Hm by exact Hmask.
  unfold info_key in Hm. injection Hm as Hw Hh Hf.
  unfold set_ResInfo_Index, new_entry. simpl. now rewrite Hw, Hh, Hf.
Qed.

(** The two ways a round of the loop ends. *)
Lemma AddResolution_cases settings v addindex best :
  (exists p r,
      (1 <= p)%nat /\ v !! p = Some r /\ matches settings addindex r = true
      /\ AddResolution settings v addindex best =
         if F32.ltb F32.zero best
            && F32.eqb (fRefreshRate (GetResolutionInfo settings addindex)) best
         then <[p := set_ResInfo_Index (to_int (Z.of_nat addindex)) r]> v
         else v)
  \/ ((forall i e, (1 <= i)%nat -> v !! i = Some e ->
                   matches settings addindex e = false)
      /\ AddResolution settings v addindex best = v ++ [new_entry settings addindex]).
Proof.
  unfold AddResolution, matches.
  destruct (AddResolution_match _ _ _ 1 (drop 1 v)) as [p|] eqn:Hmatch.
  - left. apply AddResolution_match_Some in Hmatch as (Hp & (r & Hr & Hm) & _).
    rewrite lookup_drop in Hr. replace (1 + (p - 1))%nat with p in Hr by lia.
    exists p, r. split; [exact Hp|]. split; [exact Hr|]. split; [exact Hm|].
    destruct (_ && _); [|reflexivity].
    apply list_eq. intros i. destruct (decide (i = p)) as [->|Hne].
    + rewrite list_lookup_alter_eq, Hr.
      now rewrite list_lookup_insert_eq by (apply (lookup_lt_Some _ _ _ Hr)).
    + now rewrite list_lookup_alter_ne, list_lookup_insert_ne by congruence.
  - right. split; [|reflexivity].
    intros i e Hi He.
    apply (proj1 (AddResolution_match_None _ _ _ _ _) Hmatch).
    apply (list_elem_of_lookup_2 _ (i - 1)%nat). rewrite lookup_drop.
    now replace (1 + (i - 1))%nat with i by lia.
Qed.

Lemma Catalogue_inv_first_round settings best v :
  mask_in_range ->
  Catalogue_inv settings best 0 v ->
  Catalogue_inv settings best 1 (AddResolution settings v (RES_CUSTOM + 0) best).
Proof.
  intros Hmask Hinv.
  assert (v = []) as ->.
  { destruct v as [|e v]; [reflexivity|].
    destruct (cat_sound _ _ _ _ Hinv e) as (idx & Hidx & _); [left | lia]. }
  rewrite Nat.add_0_r, AddResolution_nil. split.
  - intros e He%list_elem_of_singleton. exists RES_CUSTOM. split; [lia | exact He].
  - reflexivity.
  - intros idx Hidx. lia.
  - apply unique_keys_NoDup. constructor.
  - simpl. lia.
  - intros _ i e idx Hi He. destruct i; [lia | discriminate].
Qed.

Lemma Catalogue_inv_later_round settings best n v :
  mask_in_range ->
  (1 <= n)%nat ->
  Catalogue_inv settings best n v ->
  Catalogue_inv settings best (S n) (AddResolution settings v (RES_CUSTOM + n) best).
Proof.
  intros Hmask Hn Hinv.
  pose proof (AddResolution_unique settings v (RES_CUSTOM + n) best Hmask
                (cat_unique _ _ _ _ Hinv)) as Hunique'.
  destruct Hinv as [Hsound Hfirst Hcomplete Hunique Hlength Hpreferred].
  specialize (Hfirst Hn).
  set (addindex := (RES_CUSTOM + n)%nat) in *.
  destruct (AddResolution_cases settings v addindex best)
    as [(p & r & Hp & Hr & Hm & Hadd)|[Hno Hadd]]; rewrite Hadd in *; clear Hadd.
  - (* the record matches the entry at position p *)
    destruct (Hsound r (list_elem_of_lookup_2 _ _ _ Hr)) as (idx0 & Hidx0 & ->).
    pose proof (set_ResInfo_Index_new_entry settings addindex idx0 Hmask Hm) as Hnew.
    assert (Hkey_p : key (new_entry settings idx0)
                     = info_key (GetResolutionInfo settings addindex))
      by now apply same_mode_info_key.
    assert (Honly : forall i e, (1 <= i)%nat -> v !! i = Some e ->
                      key e = info_key (GetResolutionInfo settings addindex) -> i = p).
    { intros i e Hi He Hk.
      assert (i - 1 = p - 1)%nat; [|lia].
      apply (Hunique (i - 1)%nat (p - 1)%nat e (new_entry settings idx0)).
      - rewrite lookup_drop. now replace (1 + (i - 1))%nat with i by lia.
      - rewrite lookup_drop. now replace (1 + (p - 1))%nat with p by lia.
      - congruence. }
    destruct (F32.ltb F32.zero best
              && F32.eqb (fRefreshRate (GetResolutionInfo settings addindex)) best)
      eqn:Hcond.
    + (* the entry takes the index of the record *)
      rewrite Hnew in *.
      apply andb_true_iff in Hcond as [Hpos Hbest]. split.
      * intros e (i & Hi)%list_elem_of_lookup.
        destruct (decide (i = p)) as [->|Hne].
        -- rewrite list_lookup_insert_eq in Hi by (apply (lookup_lt_Some _ _ _ Hr)).
           injection Hi as <-. exists addindex. split; [lia | reflexivity].
        -- rewrite list_lookup_insert_ne in Hi by congruence.
           destruct (Hsound e (list_elem_of_lookup_2 _ _ _ Hi)) as (idx & Hidx & He).
           exists idx. split; [lia | exact He].
      * intros _. rewrite list_lookup_insert_ne by lia. exact Hfirst.
      * intros idx Hidx. destruct (decide (idx = addindex)) as [->|Hne].
        -- exists p, (new_entry settings addindex). split; [exact Hp|].
           split; [apply list_lookup_insert_eq, (lookup_lt_Some _ _ _ Hr)|].
           now apply key_new_entry.
        -- destruct (Hcomplete idx ltac:(lia)) as (i & e & Hi & He & Hk).
           destruct (decide (i = p)) as [->|Hip].
           ++ exists p, (new_entry settings addindex). split; [exact Hp|].
              split; [apply list_lookup_insert_eq, (lookup_lt_Some _ _ _ Hr)|].
              rewrite key_new_entry by exact Hmask. congruence.
           ++ exists i, e. split; [exact Hi|].
              split; [now rewrite list_lookup_insert_ne by congruence | exact Hk].
      * exact Hunique'.
      * rewrite length_insert. lia.
      * intros _ i e idx Hi He Hidx Hk Hrate.
        destruct (decide (i = p)) as [->|Hip].
        -- rewrite list_lookup_insert_eq in He by (apply (lookup_lt_Some _ _ _ Hr)).
           injection He as <-. exists addindex. split; [lia|]. split; [reflexivity|exact Hbest].
        -- rewrite list_lookup_insert_ne in He by congruence.
           destruct (decide (idx = addindex)) as [->|Hne].
           ++ exfalso. apply Hip. apply (Honly i e Hi He). congruence.
           ++ destruct (Hpreferred Hpos i e idx Hi He ltac:(lia) Hk Hrate)
                as (idx' & Hidx' & He' & Hrate').
              exists idx'. split; [lia|]. split; assumption.
    + (* the record is discarded *)
      split.
      * intros e He. destruct (Hsound e He) as (idx & Hidx & He').
        exists idx. split; [lia | exact He'].
      * intros _. exact Hfirst.
      * intros idx Hidx. destruct (decide (idx = addindex)) as [->|Hne].
        -- exists p, (new_entry settings idx0). auto.
        -- apply Hcomplete. lia.
      * exact Hunique'.
      * lia.
      * intros Hpos i e idx Hi He Hidx Hk Hrate.
        destruct (decide (idx = addindex)) as [->|Hne].
        -- rewrite Hpos, Hrate in Hcond. discriminate.
        -- destruct (Hpreferred Hpos i e idx Hi He ltac:(lia) Hk Hrate)
             as (idx' & Hidx' & He' & Hrate').
           exists idx'. split; [lia|]. split; assumption.
  - (* no entry matches: the entry of the record is appended *)
    assert (Hno' : forall i e, (1 <= i)%nat -> v !! i = Some e ->
                     key e <> info_key (GetResolutionInfo settings addindex)).
    { intros i e Hi He Hk. apply same_mode_info_key in Hk.
      rewrite (Hno i e Hi He) in Hk. discriminate. }
    assert (Hlen : (1 <= length v)%nat) by (apply lookup_lt_Some in Hfirst; lia).
    split.
    + intros e [He|He%list_elem_of_singleton]%elem_of_app.
      * destruct (Hsound e He) as (idx & Hidx & He'). exists idx. split; [lia | exact He'].
      * exists addindex. split; [lia | exact He].
    + intros _. now apply lookup_app_l_Some.
    + intros idx Hidx. destruct (decide (idx = addindex)) as [->|Hne].
      * exists (length v), (new_entry settings addindex). split; [exact Hlen|].
        split; [|now apply key_new_entry].
        rewrite lookup_app_r by lia. now rewrite Nat.sub_diag.
      * destruct (Hcomplete idx ltac:(lia)) as (i & e & Hi & He & Hk).
        exists i, e. split; [exact Hi|]. split; [now apply lookup_app_l_Some | exact Hk].
    + exact Hunique'.
    + rewrite length_app. simpl. lia.
    + intros Hpos i e idx Hi He Hidx Hk Hrate.
      apply lookup_app_Some in He as [He|[Hge He]].
      * destruct (decide (idx = addindex)) as [->|Hne].
        -- exfalso. apply (Hno' i e Hi He). congruence.
        -- destruct (Hpreferred Hpos i e idx Hi He ltac:(lia) Hk Hrate)
             as (idx' & Hidx' & He' & Hrate').
           exists idx'. split; [lia|]. split; assumption.
      * apply list_lookup_singleton_Some in He as [_ <-].
        destruct (decide (idx = addindex)) as [->|Hne].
        -- exists addindex. split; [lia|]. split; [reflexivity | exact Hrate].
        -- exfalso. destruct (Hcomplete idx ltac:(lia)) as (i0 & e0 & Hi0 & He0 & Hk0).
           apply (Hno' i0 e0 Hi0 He0).
           rewrite Hk0, Hk. now apply key_new_entry.
Qed.

Lemma ScreenResolutions_rounds_inv settings best n :
  mask_in_range ->
  Catalogue_inv settings best n (ScreenResolutions_rounds settings best n).
Proof.
  intros Hmask. induction n as [|n IH]; [apply Catalogue_inv_0|].
  rewrite ScreenResolutions_rounds_S. destruct n as [|n].
  - now apply Catalogue_inv_first_round.
  - apply Catalogue_inv_later_round; [exact Hmask | lia | exact IH].
Qed.

Lemma ScreenResolutions_loop_inv settings best :
  mask_in_range ->
  Catalogue_inv settings best (ResolutionInfoSize settings - RES_CUSTOM)
                (ScreenResolutions_loop settings best).
Proof. apply ScreenResolutions_rounds_inv. Qed.

(** X10. The mask being a non-negative [int] value, the catalogue
    [ScreenResolutions] returns is made of scanned records and leaves none
    out: every entry holds the width, the height and the masked flags of a
    record at [RES_CUSTOM] or later, and the index of that record; every
    such record has an entry with its width, height and masked flags; and
    there are no more entries than scanned records. *)
Theorem ScreenResolutions_sound_complete settings refreshrate :
  0 <= D3DPRESENTFLAG_MODEMASK < 2 ^ 31 ->
  (forall e, e ∈ ScreenResolutions settings refreshrate ->
     exists idx, (RES_CUSTOM <= idx < ResolutionInfoSize settings)%nat
       /\ e = {| width := iScreenWidth (GetResolutionInfo settings idx);
                 height := iScreenHeight (GetResolutionInfo settings idx);
                 flags := Z.land (dwFlags (GetResolutionInfo settings idx))
                                 D3DPRESENTFLAG_MODEMASK;
                 ResInfo_Index := to_int (Z.of_nat idx) |})
  /\ (forall idx, (RES_CUSTOM <= idx < ResolutionInfoSize settings)%nat ->
        exists e, e ∈ ScreenResolutions settings refreshrate
          /\ width e = iScreenWidth (GetResolutionInfo settings idx)
          /\ height e = iScreenHeight (GetResolutionInfo settings idx)
          /\ flags e = Z.land (dwFlags (GetResolutionInfo settings idx))
                              D3DPRESENTFLAG_MODEMASK)
  /\ (length (ScreenResolutions settings refreshrate)
      <= ResolutionInfoSize settings - RES_CUSTOM)%nat.
Proof.
  intros Hmask.
  destruct (ScreenResolutions_loop_inv settings refreshrate Hmask)
    as [Hsound Hfirst Hcomplete _ Hlength _].
  assert (Hperm : ScreenResolutions settings refreshrate
                  ≡ₚ ScreenResolutions_loop settings refreshrate)
    by apply std_sort_Permutation.
  split; [|split].
  - intros e He. rewrite Hperm in He.
    destruct (Hsound e He) as (idx & Hidx & ->). exists idx. split; [lia|].
    unfold new_entry. now rewrite to_int_mode_bits.
  - intros idx Hidx. setoid_rewrite Hperm.
    assert (Hkey : exists e, e ∈ ScreenResolutions_loop settings refreshrate
                     /\ key e = info_key (GetResolutionInfo settings idx)).
    { destruct (decide (idx = RES_CUSTOM)) as [->|Hne].
      - exists (new_entry settings RES_CUSTOM).
        split; [|now apply key_new_entry].
        apply (list_elem_of_lookup_2 _ 0%nat). apply Hfirst. lia.
      - destruct (Hcomplete idx ltac:(lia)) as (i & e & _ & He & Hk).
        exists e. split; [now apply (list_elem_of_lookup_2 _ i) | exact Hk]. }
    destruct Hkey as (e & He & Hk). exists e. split; [exact He|].
    destruct (Hsound e He) as (idx0 & _ & ->).
    rewrite key_new_entry in Hk by exact Hmask.
    unfold info_key in Hk. injection Hk as Hw Hh Hf.
    unfold new_entry. simpl. rewrite <- (to_int_mode_bits _ Hmask). auto.
  - now rewrite Hperm.
Qed.

(** X11. The mask being a non-negative [int] value and the preferred rate
    being above zero: when a scanned record other than the first one has
    exactly the preferred rate, the catalogue has an entry of its width,
    height and masked flags that points at a record of that resolution with
    the preferred rate. *)
Theorem ScreenResolutions_prefers_rate settings refreshrate idx :
  0 <= D3DPRESENTFLAG_MODEMASK < 2 ^ 31 ->
  F32.ltb F32.zero refreshrate = true ->
  (RES_CUSTOM < idx < ResolutionInfoSize settings)%nat ->
  F32.eqb (fRefreshRate (GetResolutionInfo settings idx)) refreshrate = true ->
  exists idx',
    (RES_CUSTOM < idx' < ResolutionInfoSize settings)%nat
    /\ new_entry settings idx' ∈ ScreenResolutions settings refreshrate
    /\ info_key (GetResolutionInfo settings idx')
       = info_key (GetResolutionInfo settings idx)
    /\ F32.eqb (fRefreshRate (GetResolutionInfo settings idx')) refreshrate = true.
Proof.
  intros Hmask Hpos Hidx Hrate.
  destruct (ScreenResolutions_loop_inv settings refreshrate Hmask)
    as [_ _ Hcomplete _ _ Hpreferred].
  destruct (Hcomplete idx ltac:(lia)) as (i & e & Hi & He & Hk).
  destruct (Hpreferred Hpos i e idx Hi He ltac:(lia) (eq_sym Hk) Hrate)
    as (idx' & Hidx' & -> & Hrate').
  exists idx'. split; [lia|]. split; [|split; [|exact Hrate']].
  - unfold ScreenResolutions. rewrite std_sort_Permutation.
    now apply (list_elem_of_lookup_2 _ i).
  - rewrite <- Hk. symmetry. now apply key_new_entry.
Qed.

(** ** More on the refresh rates *)

(** X12. [rrSortPredicate] is irreflexive, asymmetric and transitive on all
    entries. On entries whose rates are not NaNs it is a strict weak
    ordering, two entries being equivalent exactly when their rates are
    equal as floats; an entry whose rate is a NaN is below no entry and
    above none, so that with such entries equivalence is not transitive. *)
Theorem rrSortPredicate_order :
  (forall i, rrSortPredicate i i = false)
  /\ (forall i j, rrSortPredicate i j = true -> rrSortPredicate j i = false)
  /\ (forall i j k, rrSortPredicate i j = true -> rrSortPredicate j k = true ->
        rrSortPredicate i k = true)
  /\ (forall i j,
        F32.is_nan (RefreshRate i) = false -> F32.is_nan (RefreshRate j) = false ->
        (rrSortPredicate i j = false /\ rrSortPredicate j i = false
         <-> F32.eqb (RefreshRate i) (RefreshRate j) = true))
  /\ (forall i j, F32.is_nan (RefreshRate i) = true ->
        rrSortPredicate i j = false /\ rrSortPredicate j i = false).
Proof.
  unfold rrSortPredicate. split; [|split; [|split; [|split]]].
  - intros i. apply F32.ltb_irrefl.
  - intros i j. apply F32.ltb_asym.
  - intros i j k. apply F32.ltb_trans.
  - intros i j Hi Hj. split.
    + intros [Hij Hji].
      destruct (F32Arith.trichotomy _ _ Hi Hj) as [H|[H|H]]; congruence.
    + intros Heq. split; [now apply F32.eqb_not_ltb|].
      apply F32.eqb_not_ltb. now rewrite F32.eqb_sym.
  - intros i j Hi. destruct (RefreshRate i); try discriminate.
    split; [reflexivity|]. now destruct (RefreshRate j) as [[]|[]| |[]].
Qed.

#[local] Instance not_after_rrSortPredicate_total :
  Total (not_after rrSortPredicate).
Proof.
  intros x y. unfold not_after, rrSortPredicate.
  destruct (F32.ltb (RefreshRate y) (RefreshRate x)) eqn:H; [|now left].
  right. now apply F32.ltb_asym.
Qed.

(** The rate of the first entry is below the rate of the second. *)
Definition rate_below (a b : REFRESHRATE) : Prop :=
  F32.ltb (RefreshRate a) (RefreshRate b) = true.

#[local] Instance rate_below_trans : Transitive rate_below.
Proof. intros a b c. apply F32.ltb_trans. Qed.

Lemma Sorted_rate_below (l : list REFRESHRATE) :
  Sorted (not_after rrSortPredicate) l ->
  NoDup l ->
  (forall a, a ∈ l -> F32.is_nan (RefreshRate a) = false) ->
  (forall a b, a ∈ l -> b ∈ l ->
               F32.eqb (RefreshRate a) (RefreshRate b) = true -> a = b) ->
  Sorted rate_below l.
Proof.
  induction 1 as [|x l Hs IH Hhd]; intros Hnd Hnan Heq; [constructor|].
  apply NoDup_cons in Hnd as [Hx Hnd].
  constructor.
  - apply IH; [exact Hnd | |].
    + intros a Ha. apply Hnan. now right.
    + intros a b Ha Hb. apply Heq; now right.
  - destruct Hhd as [|y l Hxy]; constructor.
    unfold not_after, rrSortPredicate in Hxy. unfold rate_below.
    destruct (F32Arith.trichotomy (RefreshRate x) (RefreshRate y)) as [H|[H|H]].
    + apply Hnan. left.
    + apply Hnan. right. left.
    + exact H.
    + exfalso. apply Hx. rewrite (Heq x y); [left | left | right; left | exact H].
    + congruence.
Qed.

(** X13. When no scanned record of the target mode has a NaN as rate, the
    rates [RefreshRates] returns are strictly ascending: of two returned
    entries the earlier one has the smaller rate. *)
Theorem RefreshRates_ascending settings w h dw i j a b :
  (forall idx, selected settings w h dw idx ->
               F32.is_nan (rate_of settings idx) = false) ->
  (i < j)%nat ->
  RefreshRates settings w h dw !! i = Some a ->
  RefreshRates settings w h dw !! j = Some b ->
  F32.ltb (RefreshRate a) (RefreshRate b) = true.
Proof.
  intros Hnan Hij Hi Hj.
  assert (Hperm : RefreshRates settings w h dw ≡ₚ RefreshRates_loop settings w h dw)
    by apply std_sort_Permutation.
  destruct (RefreshRates_rounds_inv settings w h dw
              (ResolutionInfoSize settings - RES_DESKTOP)) as [Hs _ Hd].
  rewrite <- RefreshRates_loop_rounds in Hs, Hd.
  assert (Hnan' : forall a, a ∈ RefreshRates_loop settings w h dw ->
                            F32.is_nan (RefreshRate a) = false).
  { intros r Hr. destruct (Hs r Hr) as (idx & Hidx & Hm & -> & _).
    apply Hnan. unfold selected. apply mode_is_true in Hm. split; [lia | exact Hm]. }
  assert (Hnd : NoDup (RefreshRates_loop settings w h dw)).
  { apply NoDup_alt. intros i0 j0 r Hi0 Hj0. apply (Hd i0 j0 r r Hi0 Hj0).
    apply F32.eqb_refl, Hnan'. now apply (list_elem_of_lookup_2 _ i0). }
  assert (Hsorted : Sorted rate_below (RefreshRates settings w h dw)).
  { apply Sorted_rate_below.
    - apply Sorted_merge_sort. apply _.
    - now rewrite Hperm.
    - intros r Hr. rewrite Hperm in Hr. now apply Hnan'.
    - intros r1 r2 H1 H2 Heq. rewrite Hperm in H1, H2.
      apply list_elem_of_lookup in H1 as [i1 H1], H2 as [i2 H2].
      pose proof (Hd i1 i2 r1 r2 H1 H2 Heq) as ->. congruence. }
  apply Sorted_StronglySorted in Hsorted; [|apply _].
  apply (StronglySorted_lookup_lt rate_below _ i j a b Hsorted Hij Hi Hj).
Qed.

(** X14. The default refresh rate of the desktop's own mode is a perfect
    match. When the store has a desktop record and the scanned records of
    its width, height and masked flags have finite rates, [RefreshRates]
    for that mode is not empty and [DefaultRefreshRate] returns one of its
    entries with fitness zero. *)
Theorem DefaultRefreshRate_of_desktop_mode settings :
  (RES_DESKTOP < ResolutionInfoSize settings)%nat ->
  let desktop := GetResolutionInfo settings RES_DESKTOP in
  let rates := RefreshRates settings (iScreenWidth desktop)
                            (iScreenHeight desktop) (dwFlags desktop) in
  (forall idx, selected settings (iScreenWidth desktop) (iScreenHeight desktop)
                        (dwFlags desktop) idx ->
               F32Arith.is_finite (rate_of settings idx) = true) ->
  exists best,
    DefaultRefreshRate settings rates = Returns best
    /\ best ∈ rates
    /\ F32.eqb (fitness (fRefreshRate desktop) best) F32.zero = true.
Proof.
  intros Hsize desktop rates Hfinite.
  set (w := iScreenWidth desktop) in *. set (h := iScreenHeight desktop) in *.
  set (dw := dwFlags desktop) in *. set (t := fRefreshRate desktop).
  assert (Hperm : rates ≡ₚ RefreshRates_loop settings w h dw)
    by apply std_sort_Permutation.
  destruct (RefreshRates_rounds_inv settings w h dw
              (ResolutionInfoSize settings - RES_DESKTOP)) as [Hs Hc _].
  rewrite <- RefreshRates_loop_rounds in Hs, Hc.
  assert (Hdesk : mode_is settings w h dw RES_DESKTOP = true)
    by (apply mode_is_true; auto).
  assert (Hsel : selected settings w h dw RES_DESKTOP)
    by (split; [lia | now apply mode_is_true]).
  assert (Ht : F32Arith.is_finite t = true) by apply (Hfinite _ Hsel).
  (* the entry of the desktop record is among the rates *)
  assert (Hin : rate_entry settings RES_DESKTOP ∈ rates).
  { rewrite Hperm. destruct (Hc RES_DESKTOP ltac:(lia) Hdesk)
      as [Hin|(idx' & Hidx' & _)]; [exact Hin | lia]. }
  destruct rates as [|r0 rest] eqn:Hrates; [inversion Hin|].
  destruct (DefaultRefreshRate_returns_nearest settings r0 rest)
    as (i & best & Hret & Hi & Hmin & _).
  fold desktop in Hmin. fold t in Hmin.
  exists best. split; [exact Hret|].
  assert (Hbest : best ∈ r0 :: rest) by now apply (list_elem_of_lookup_2 _ i).
  split; [exact Hbest|].
  (* the fitness of the desktop entry is zero, that of [best] is a number *)
  assert (Hzero : F32.eqb (fitness t (rate_entry settings RES_DESKTOP)) F32.zero = true).
  { unfold fitness. apply F32Arith.sub_equal; [exact Ht|].
    apply F32.eqb_refl. now apply F32Arith.is_finite_not_nan. }
  assert (Hnum : F32.is_nan (fitness t best) = false).
  { rewrite Hperm in Hbest. destruct (Hs best Hbest) as (idx & Hidx & Hm & -> & _).
    unfold fitness. simpl.
    assert (Hsub : F32.is_nan (F32.sub t (rate_of settings idx)) = false).
    { apply F32Arith.sub_not_nan; [exact Ht|]. apply Hfinite.
      split; [lia | now apply mode_is_true]. }
    unfold F32.fabs. now destruct (F32.sub t (rate_of settings idx)). }
  destruct (F32Arith.trichotomy (fitness t best) F32.zero Hnum eq_refl)
    as [Hlt|[Heq|Hgt]].
  - now rewrite fitness_not_neg in Hlt.
  - exact Heq.
  - pose proof (F32.eqb_ltb_trans _ _ _ Hzero Hgt) as Hbad.
    now rewrite (Hmin _ Hin) in Hbad.
Qed.

(** X18. [RefreshRates] returns the empty vector exactly when no scanned
    record has the target width, height and masked flags, and this is the
    one case in which [DefaultRefreshRate] of its result is undefined: when
    there is such a record, [DefaultRefreshRate] returns the rate and the
    index of one. *)
Theorem DefaultRefreshRate_of_RefreshRates settings w h dw :
  (RefreshRates settings w h dw = [] <->
   forall idx, ~ selected settings w h dw idx)
  /\ (DefaultRefreshRate settings (RefreshRates settings w h dw) = Undefined <->
      forall idx, ~ selected settings w h dw idx)
  /\ (forall idx, selected settings w h dw idx ->
        exists idx',
          selected settings w h dw idx'
          /\ DefaultRefreshRate settings (RefreshRates settings w h dw)
             = Returns {| RefreshRate := fRefreshRate (GetResolutionInfo settings idx');
                          RR_ResInfo_Index := to_int (Z.of_nat idx') |}).
Proof.
  assert (Hperm : RefreshRates settings w h dw ≡ₚ RefreshRates_loop settings w h dw)
    by apply std_sort_Permutation.
  destruct (RefreshRates_rounds_inv settings w h dw
              (ResolutionInfoSize settings - RES_DESKTOP)) as [Hs Hc _].
  rewrite <- RefreshRates_loop_rounds in Hs, Hc.
  assert (Hsel : forall idx, selected settings w h dw idx <->
            (RES_DESKTOP <= idx < RES_DESKTOP + (ResolutionInfoSize settings - RES_DESKTOP))%nat
            /\ mode_is settings w h dw idx = true).
  { intros idx. unfold selected. rewrite mode_is_true. intuition lia. }
  assert (Hin : forall rr, rr ∈ RefreshRates settings w h dw ->
                  exists idx, selected settings w h dw idx
                              /\ rr = rate_entry settings idx).
  { intros rr Hrr. rewrite Hperm in Hrr.
    destruct (Hs rr Hrr) as (idx & Hidx & Hm & Heq & _).
    exists idx. split; [apply Hsel; auto | exact Heq]. }
  assert (Hempty : RefreshRates settings w h dw = [] <->
                   forall idx, ~ selected settings w h dw idx).
  { split.
    - intros Hnil idx [Hidx Hm]%Hsel.
      assert (Hany : exists rr, rr ∈ RefreshRates settings w h dw).
      { setoid_rewrite Hperm.
        destruct (Hc idx Hidx Hm) as [H|(idx' & _ & _ & _ & H)]; eauto. }
      destruct Hany as [rr Hrr]. rewrite Hnil in Hrr. inversion Hrr.
    - intros Hnone. destruct (RefreshRates settings w h dw) as [|rr rest];
        [reflexivity|].
      destruct (Hin rr ltac:(left)) as (idx & Hidx & _). now apply Hnone in Hidx. }
  split; [exact Hempty|]. split.
  - rewrite <- Hempty. unfold DefaultRefreshRate.
    destruct (RefreshRates settings w h dw) as [|rr rest]; simpl;
      split; intros; try reflexivity; discriminate.
  - intros idx Hidx.
    destruct (RefreshRates settings w h dw) as [|r0 rest] eqn:Hrates.
    + exfalso. now apply (proj1 Hempty eq_refl idx).
    + destruct (DefaultRefreshRate_returns_nearest settings r0 rest)
        as (i & best & Hret & Hi & _).
      destruct (Hin best (list_elem_of_lookup_2 _ _ _ Hi)) as (idx' & Hidx' & ->).
      exists idx'. split; [exact Hidx' | exact Hret].
Qed.

End Catalogue.

(** ** The render-loop registry *)

Module RenderLoop.

(** An [IRenderLoop *]: the identity of a client object. *)
Definition IRenderLoop := nat.

(** What a call does that can be seen from outside: the call of the
    virtual [MessagePump()], entering and leaving the critical section
    [m_renderLoopSection], and the call of a client's [FrameMove()]. The
    two virtual calls are taken not to touch the registry. *)
Inductive event :=
| MessagePump
| Lock
| Unlock
| FrameMove (client : IRenderLoop).

(** Computations over [m_renderLoopClients] that log their events. *)
Definition M (A : Type) : Type :=
  list IRenderLoop -> A * list IRenderLoop * list event.

#[global] Instance M_ret : MRet M := fun A a clients => (a, clients, []).

#[global] Instance M_bind : MBind M := fun A B k m clients =>
  let '(a, clients1, t1) := m clients in
  let '(b, clients2, t2) := k a clients1 in
  (b, clients2, t1 ++ t2).

Definition get : M (list IRenderLoop) := fun clients => (clients, clients, []).
Definition put (clients : list IRenderLoop) : M unit := fun _ => (tt, clients, []).
Definition emit (e : event) : M unit := fun clients => (tt, clients, [e]).

Definition registry_after {A : Type} (m : M A) (clients : list IRenderLoop)
  : list IRenderLoop := snd (fst (m clients)).
Definition events_of {A : Type} (m : M A) (clients : list IRenderLoop)
  : list event := snd (m clients).

(** Modelled from the spec: [CSingleLock] and the critical section are
    declared outside the sources; the specification has a mutual-exclusion
    lock that serializes the accesses to the participant list. A block
    [{ CSingleLock lock(m_renderLoopSection); body }] enters the section
    where the lock is declared and leaves it at the end of the block. *)
Definition CSingleLock {A : Type} (body : M A) : M A :=
  emit Lock ;; a ← body ; emit Unlock ;; mret a.

(** The iterator loop [for (auto i = v.begin(); i != v.end(); ++i)], with
    [f] called on each element. *)
Fixpoint for_each (f : IRenderLoop -> M unit) (v : list IRenderLoop) : M unit :=
  match v with
  | [] => mret tt
  | i :: v' => f i ;; for_each f v'
  end.

(** [find] followed by [erase]: the first occurrence is removed. *)
Fixpoint erase_first (client : IRenderLoop) (v : list IRenderLoop)
  : list IRenderLoop :=
  match v with
  | [] => []
  | i :: v' => if Nat.eqb i client then v' else i :: erase_first client v'
  end.

Definition RegisterRenderLoop (client : IRenderLoop) : M unit :=
  CSingleLock (clients ← get ; put (clients ++ [client])).

Definition UnregisterRenderLoop (client : IRenderLoop) : M unit :=
  CSingleLock (clients ← get ; put (erase_first client clients)).

Definition DriveRenderLoop : M unit :=
  emit MessagePump ;;
  CSingleLock (clients ← get ; for_each (fun i => emit (FrameMove i)) clients).

(** The clients whose [FrameMove] a trace calls, in the order of the calls. *)
Fixpoint frame_moves (t : list event) : list IRenderLoop :=
  match t with
  | [] => []
  | FrameMove client :: t' => client :: frame_moves t'
  | _ :: t' => frame_moves t'
  end.

(** The number of calls of [MessagePump] in a trace. *)
Fixpoint message_pumps (t : list event) : nat :=
  match t with
  | [] => 0
  | MessagePump :: t' => S (message_pumps t')
  | _ :: t' => message_pumps t'
  end.

(** The calls a trace makes while the critical section is held, [depth]
    being the number of times it is held when the trace starts. *)
Fixpoint under_lock (depth : nat) (t : list event) : list event :=
  match t with
  | [] => []
  | Lock :: t' => under_lock (S depth) t'
  | Unlock :: t' => under_lock (pred depth) t'
  | e :: t' =>
      match depth with
      | O => under_lock depth t'
      | S _ => e :: under_lock depth t'
      end
  end.

(** The calls a trace makes while the critical section is not held. *)
Fixpoint outside_lock (depth : nat) (t : list event) : list event :=
  match t with
  | [] => []
  | Lock :: t' => outside_lock (S depth) t'
  | Unlock :: t' => outside_lock (pred depth) t'
  | e :: t' =>
      match depth with
      | O => e :: outside_lock depth t'
      | S _ => outside_lock depth t'
      end
  end.

(** No [FrameMove] is called while the critical section is held. *)
Definition callbacks_outside_lock (t : list event) : Prop :=
  forall client, FrameMove client ∉ under_lock 0 t.

Lemma for_each_FrameMove v clients :
  for_each (fun i => emit (FrameMove i)) v clients = (tt, clients, FrameMove <$> v).
Proof.
  induction v as [|i v IH]; [reflexivity|].
  simpl. unfold mbind, M_bind.
  change (emit (FrameMove i) clients) with (tt, clients, [FrameMove i]).
  cbv beta iota. now rewrite IH.
Qed.

Lemma DriveRenderLoop_run clients :
  DriveRenderLoop clients =
  (tt, clients, MessagePump :: Lock :: (FrameMove <$> clients) ++ [Unlock]).
Proof.
  unfold DriveRenderLoop, CSingleLock, mbind, M_bind. simpl.
  rewrite for_each_FrameMove. reflexivity.
Qed.

Lemma frame_moves_FrameMove v t :
  frame_moves ((FrameMove <$> v) ++ t) = v ++ frame_moves t.
Proof. induction v as [|i v IH]; csimpl; [reflexivity | now rewrite IH]. Qed.

Lemma message_pumps_FrameMove v t :
  message_pumps ((FrameMove <$> v) ++ t) = message_pumps t.
Proof. induction v as [|i v IH]; csimpl; [reflexivity | exact IH]. Qed.

Lemma under_lock_FrameMove depth v t :
  under_lock (S depth) ((FrameMove <$> v) ++ t)
  = (FrameMove <$> v) ++ under_lock (S depth) t.
Proof. induction v as [|i v IH]; csimpl; [reflexivity | now rewrite IH]. Qed.

Lemma outside_lock_FrameMove depth v t :
  outside_lock (S depth) ((FrameMove <$> v) ++ t) = outside_lock (S depth) t.
Proof. induction v as [|i v IH]; csimpl; [reflexivity | exact IH]. Qed.

(** C8. One call of [DriveRenderLoop] calls [MessagePump] once, before
    anything else, and then [FrameMove] of every registered client, once for
    each registration and in the order of the registrations; it leaves the
    registry as it is. [RegisterRenderLoop] appends, so that a client
    registered twice is driven twice and, of two clients, the one
    registered first is driven first. *)
Theorem DriveRenderLoop_drives_registered :
  (forall clients,
      let t := events_of DriveRenderLoop clients in
      t = MessagePump :: Lock :: (FrameMove <$> clients) ++ [Unlock]
      /\ t !! 0%nat = Some MessagePump
      /\ message_pumps t = 1%nat
      /\ frame_moves t = clients
      /\ registry_after DriveRenderLoop clients = clients)
  /\ (forall client clients,
        registry_after (RegisterRenderLoop client) clients = clients ++ [client])
  /\ (forall a clients,
        frame_moves (events_of (RegisterRenderLoop a ;; RegisterRenderLoop a ;;
                                DriveRenderLoop : M unit) clients)
        = clients ++ [a; a])
  /\ (forall a b clients,
        frame_moves (events_of (RegisterRenderLoop a ;; RegisterRenderLoop b ;;
                                DriveRenderLoop : M unit) clients)
        = clients ++ [a; b]).
Proof.
  split; [|split; [|split]].
  - intros clients t. subst t. unfold events_of, registry_after.
    rewrite DriveRenderLoop_run. simpl.
    rewrite message_pumps_FrameMove, frame_moves_FrameMove. simpl.
    now rewrite ?app_nil_r.
  - reflexivity.
  - intros a clients. unfold events_of, mbind, M_bind, RegisterRenderLoop, CSingleLock.
    simpl. rewrite DriveRenderLoop_run. simpl.
    rewrite frame_moves_FrameMove. simpl. now rewrite ?app_nil_r, <- ?app_assoc.
  - intros a b clients. unfold events_of, mbind, M_bind, RegisterRenderLoop, CSingleLock.
    simpl. rewrite DriveRenderLoop_run. simpl.
    rewrite frame_moves_FrameMove. simpl. now rewrite ?app_nil_r, <- ?app_assoc.
Qed.

(** C10, as the code has it. [DriveRenderLoop] calls [MessagePump] before
    it enters the critical section and calls every [FrameMove] inside it:
    the section is entered once, after the message pump, is held during the
    whole pass over the clients, and is left after the last call. *)
Theorem DriveRenderLoop_holds_lock clients :
  let t := events_of DriveRenderLoop clients in
  under_lock 0 t = FrameMove <$> clients
  /\ outside_lock 0 t = [MessagePump]
  /\ t = [MessagePump] ++ [Lock] ++ (FrameMove <$> clients) ++ [Unlock].
Proof.
  intros t. subst t. unfold events_of. rewrite DriveRenderLoop_run. simpl.
  rewrite under_lock_FrameMove, outside_lock_FrameMove. simpl.
  now rewrite ?app_nil_r.
Qed.

(** *** Unregistering *)

Lemma erase_first_absent client (v : list IRenderLoop) :
  client ∉ v -> erase_first client v = v.
Proof.
  induction v as [|i v IH]; intros Hin; simpl; [reflexivity|].
  apply not_elem_of_cons in Hin as [Hne Hin].
  destruct (Nat.eqb_spec i client) as [->|_]; [congruence|].
  now rewrite IH.
Qed.

Lemma erase_first_middle client (v1 v2 : list IRenderLoop) :
  client ∉ v1 -> erase_first client (v1 ++ client :: v2) = v1 ++ v2.
Proof.
  induction v1 as [|i v1 IH]; intros Hin; simpl.
  - now rewrite Nat.eqb_refl.
  - apply not_elem_of_cons in Hin as [Hne Hin].
    destruct (Nat.eqb_spec i client) as [->|_]; [congruence|].
    now rewrite IH.
Qed.

Lemma UnregisterRenderLoop_run client clients :
  UnregisterRenderLoop client clients
  = (tt, erase_first client clients, [Lock; Unlock]).
Proof. reflexivity. Qed.

Lemma RegisterRenderLoop_run client clients :
  RegisterRenderLoop client clients = (tt, clients ++ [client], [Lock; Unlock]).
Proof. reflexivity. Qed.

(** X1. [UnregisterRenderLoop] removes the first registration of the client
    and nothing else: the registrations before and after it keep their
    places, later registrations of the same client stay, and a client that
    is not registered leaves the registry as it is. *)
Theorem UnregisterRenderLoop_removes_first client clients :
  (client ∉ clients ->
   registry_after (UnregisterRenderLoop client) clients = clients)
  /\ (forall before after,
        client ∉ before -> clients = before ++ client :: after ->
        registry_after (UnregisterRenderLoop client) clients = before ++ after)
  /\ (forall other, other <> client ->
        filter (fun i => i = other)
               (registry_after (UnregisterRenderLoop client) clients)
        = filter (fun i => i = other) clients).
Proof.
  unfold registry_after. rewrite UnregisterRenderLoop_run. simpl.
  split; [apply erase_first_absent|]. split.
  - intros before after Hin ->. now apply erase_first_middle.
  - intros other Hne. induction clients as [|i v IH]; simpl; [reflexivity|].
    destruct (Nat.eqb_spec i client) as [->|Hi].
    + rewrite filter_cons_False by congruence. reflexivity.
    + rewrite !filter_cons. simpl. rewrite IH. reflexivity.
Qed.


(** X3. A pass of [DriveRenderLoop] after [UnregisterRenderLoop] drives the
    registry without the first registration of the client: a client
    registered once is not driven any more, and a client that has been
    registered and unregistered in between leaves the pass as it was. *)
Theorem DriveRenderLoop_after_Unregister client clients :
  frame_moves (events_of (UnregisterRenderLoop client ;; DriveRenderLoop : M unit)
                         clients)
  = erase_first client clients
  /\ (forall before after,
        client ∉ before -> client ∉ after -> clients = before ++ client :: after ->
        client ∉ frame_moves (events_of (UnregisterRenderLoop client ;;
                                          DriveRenderLoop : M unit) clients))
  /\ (client ∉ clients ->
      frame_moves (events_of (RegisterRenderLoop client ;;
                              UnregisterRenderLoop client ;;
                              DriveRenderLoop : M unit) clients)
      = clients).
Proof.
  assert (Hrun : forall v,
             frame_moves (events_of (UnregisterRenderLoop client ;;
                                     DriveRenderLoop : M unit) v)
             = erase_first client v).
  { intros v. unfold events_of, mbind, M_bind.
    rewrite UnregisterRenderLoop_run, DriveRenderLoop_run. simpl.
    rewrite frame_moves_FrameMove. simpl. apply app_nil_r. }
  split; [apply Hrun|]. split.
  - intros before after Hb Ha ->. rewrite Hrun, erase_first_middle by exact Hb.
    rewrite elem_of_app. tauto.
  - intros Hin. unfold events_of, mbind, M_bind.
    rewrite RegisterRenderLoop_run, UnregisterRenderLoop_run, DriveRenderLoop_run.
    simpl. rewrite frame_moves_FrameMove. simpl.
    rewrite erase_first_middle by exact Hin. now rewrite !app_nil_r.
Qed.

End RenderLoop.

(** ** The HDR status probe *)

Section HDR.

(** Constants of the platform headers, which are not part of the sources. *)
Variable ERROR_SUCCESS : Z.
Variable DISPLAYCONFIG_MODE_INFO_TYPE_TARGET : Z.
Variable sizeof_PATH_INFO sizeof_MODE_INFO : Z.

(** The fields of [DISPLAYCONFIG_MODE_INFO] the probe reads. *)
Record DISPLAYCONFIG_MODE_INFO := {
  infoType : Z;
  mode_id : Z;
  mode_adapterId_LowPart : Z;
  mode_adapterId_HighPart : Z
}.

(** The request buffer: a [DISPLAYCONFIG_DEVICE_INFO_HEADER], which takes
    the bytes 0 to 19, and the bytes from 20 on. *)
Record request_packet := {
  packet_type : Z;
  packet_size : Z;
  adapterId_LowPart : Z;
  adapterId_HighPart : Z;
  id : Z;
  payload : list Z
}.

(** [uint8_t request[] = {0x09, 0, 0, 0, 0x20, 0, 0, 0, 0x7C, 0x6F, ...}]. *)
Definition request : request_packet :=
  {| packet_type := 0x09;
     packet_size := 0x20;
     adapterId_LowPart := 0x6F7C;
     adapterId_HighPart := 0;
     id := 0x0104;
     payload := [0xDB; 0; 0; 0; 0; 0; 0; 0; 0; 0x40; 0; 0] |}.

(** [request[20]]. *)
Definition byte20 (p : request_packet) : Z := default 0 (payload p !! 0%nat).

(** The answers of the platform to the calls the probe makes: the return
    code and the two counts of [GetDisplayConfigBufferSizes], whether
    [std::malloc] of a size gives a block, the return code and the mode
    array of [QueryDisplayConfig], and the return code of
    [DisplayConfigGetDeviceInfo] with the buffer as it leaves it. *)
Record Platform := {
  GetDisplayConfigBufferSizes : Z * Z * Z;
  malloc : Z -> bool;
  QueryDisplayConfig : Z * list DISPLAYCONFIG_MODE_INFO;
  DisplayConfigGetDeviceInfo : request_packet -> Z * request_packet
}.

(** The loop over the modes: the header takes the adapter and the id of
    every mode of type target in turn, the last one staying. *)
Definition set_target (requestPacket : request_packet)
    (modesArray : list DISPLAYCONFIG_MODE_INFO) : request_packet :=
  foldl (fun p m =>
           if infoType m =? DISPLAYCONFIG_MODE_INFO_TYPE_TARGET
           then {| packet_type := packet_type p;
                   packet_size := packet_size p;
                   adapterId_LowPart := mode_adapterId_LowPart m;
                   adapterId_HighPart := mode_adapterId_HighPart m;
                   id := mode_id m;
                   payload := payload p |}
           else p)
        requestPacket modesArray.

(** The [switch] on [request[20]]. *)
Definition status_of_response (b : Z) : Z :=
  if b =? 0xD0 then 0       (* display is not HDR capable *)
  else if b =? 0xD1 then 1  (* capable and HDR is OFF *)
  else if b =? 0xD3 then 2  (* capable and HDR is ON *)
  else 0.                   (* default: UNKNOWN *)

Definition GetHDRDisplayStatus (os : Platform) : Z :=
  let status := 0 in
  let '(rc, pathCount, modeCount) := GetDisplayConfigBufferSizes os in
  if ERROR_SUCCESS =? rc then
    let pathsArray := malloc os (pathCount * sizeof_PATH_INFO) in
    let modesArray := malloc os (modeCount * sizeof_MODE_INFO) in
    if pathsArray && modesArray then
      let '(rc, modes) := QueryDisplayConfig os in
      if ERROR_SUCCESS =? rc then
        let requestPacket := set_target request modes in
        let '(rc, answer) := DisplayConfigGetDeviceInfo os requestPacket in
        if ERROR_SUCCESS =? rc then status_of_response (byte20 answer)
        else status
      else status
    else status
  else status.

Definition IsDisplayHDREnabled (os : Platform) : bool :=
  GetHDRDisplayStatus os =? 2.

(** A call of the platform does not succeed. *)
Definition query_fails (os : Platform) : Prop :=
  fst (fst (GetDisplayConfigBufferSizes os)) <> ERROR_SUCCESS
  \/ malloc os (snd (fst (GetDisplayConfigBufferSizes os)) * sizeof_PATH_INFO) = false
  \/ malloc os (snd (GetDisplayConfigBufferSizes os) * sizeof_MODE_INFO) = false
  \/ fst (QueryDisplayConfig os) <> ERROR_SUCCESS
  \/ fst (DisplayConfigGetDeviceInfo os
            (set_target request (snd (QueryDisplayConfig os)))) <> ERROR_SUCCESS.

(** Every call succeeds and the platform answers with the response code
    [b]. *)
Definition responds (os : Platform) (b : Z) : Prop :=
  fst (fst (GetDisplayConfigBufferSizes os)) = ERROR_SUCCESS
  /\ malloc os (snd (fst (GetDisplayConfigBufferSizes os)) * sizeof_PATH_INFO) = true
  /\ malloc os (snd (GetDisplayConfigBufferSizes os) * sizeof_MODE_INFO) = true
  /\ fst (QueryDisplayConfig os) = ERROR_SUCCESS
  /\ fst (DisplayConfigGetDeviceInfo os
            (set_target request (snd (QueryDisplayConfig os)))) = ERROR_SUCCESS
  /\ byte20 (snd (DisplayConfigGetDeviceInfo os
            (set_target request (snd (QueryDisplayConfig os))))) = b.

(** The status of a failed query is one that no answer of the platform
    gives for a display that is not HDR capable. *)
Definition unknown_is_distinct : Prop :=
  forall os os', query_fails os -> responds os' 0xD0 ->
                 GetHDRDisplayStatus os <> GetHDRDisplayStatus os'.

Lemma GetHDRDisplayStatus_fails os :
  query_fails os -> GetHDRDisplayStatus os = 0.
Proof.
  unfold query_fails, GetHDRDisplayStatus.
  destruct (GetDisplayConfigBufferSizes os) as [[rc pathCount] modeCount]. simpl.
  destruct (Z.eqb_spec ERROR_SUCCESS rc) as [<-|Hrc]; [|reflexivity].
  destruct (malloc os (pathCount * sizeof_PATH_INFO)); simpl;
    [|reflexivity].
  destruct (malloc os (modeCount * sizeof_MODE_INFO)); simpl;
    [|reflexivity].
  destruct (QueryDisplayConfig os) as [rc modes]. simpl.
  destruct (Z.eqb_spec ERROR_SUCCESS rc) as [<-|Hrc]; [|reflexivity].
  destruct (DisplayConfigGetDeviceInfo os (set_target request modes))
    as [rc answer]. simpl.
  destruct (Z.eqb_spec ERROR_SUCCESS rc) as [<-|Hrc]; [|reflexivity].
  intros [H|[H|[H|[H|H]]]]; congruence.
Qed.

Lemma GetHDRDisplayStatus_responds os b :
  responds os b -> GetHDRDisplayStatus os = status_of_response b.
Proof.
  unfold responds, GetHDRDisplayStatus.
  destruct (GetDisplayConfigBufferSizes os) as [[rc pathCount] modeCount]. simpl.
  intros (-> & -> & -> & H). rewrite Z.eqb_refl. simpl.
  destruct (QueryDisplayConfig os) as [rc modes]. simpl in *.
  destruct H as (-> & H). rewrite Z.eqb_refl.
  destruct (DisplayConfigGetDeviceInfo os (set_target request modes))
    as [rc answer]. simpl in *.
  destruct H as (-> & ->). now rewrite Z.eqb_refl.
Qed.

(** C9, as the code has it. The probe is an [int]-valued function that
    always returns. When a call of the platform does not succeed it returns
    0, and so it does for every response code other than [0xD1] (capable
    and off, status 1) and [0xD3] (capable and on, status 2): the status of
    a failed query and of an unknown response code is the status of a
    display that is not HDR capable ([0xD0]), and it differs from the two
    capable ones. *)
Theorem GetHDRDisplayStatus_unknown_is_zero :
  (forall os, query_fails os -> GetHDRDisplayStatus os = 0)
  /\ (forall os b, responds os b -> b <> 0xD1 -> b <> 0xD3 ->
        GetHDRDisplayStatus os = 0)
  /\ (forall os, responds os 0xD0 -> GetHDRDisplayStatus os = 0)
  /\ (forall os, responds os 0xD1 -> GetHDRDisplayStatus os = 1)
  /\ (forall os, responds os 0xD3 -> GetHDRDisplayStatus os = 2)
  /\ (forall os os', query_fails os -> responds os' 0xD0 ->
        GetHDRDisplayStatus os = GetHDRDisplayStatus os')
  /\ (forall os, GetHDRDisplayStatus os = 0 \/ GetHDRDisplayStatus os = 1
                 \/ GetHDRDisplayStatus os = 2).
Proof.
  split; [exact GetHDRDisplayStatus_fails|].
  split.
  { intros os b Hb H1 H3. rewrite (GetHDRDisplayStatus_responds os b Hb).
    unfold status_of_response.
    destruct (Z.eqb_spec b 0xD0); [reflexivity|].
    destruct (Z.eqb_spec b 0xD1); [contradiction|].
    destruct (Z.eqb_spec b 0xD3); [contradiction|reflexivity]. }
  split; [intros os Hb; now rewrite (GetHDRDisplayStatus_responds os _ Hb)|].
  split; [intros os Hb; now rewrite (GetHDRDisplayStatus_responds os _ Hb)|].
  split; [intros os Hb; now rewrite (GetHDRDisplayStatus_responds os _ Hb)|].
  split.
  { intros os os' Hf Hb. rewrite (GetHDRDisplayStatus_fails os Hf).
    now rewrite (GetHDRDisplayStatus_responds os' _ Hb). }
  intros os. unfold GetHDRDisplayStatus.
  destruct (GetDisplayConfigBufferSizes os) as [[rc pathCount] modeCount].
  destruct (ERROR_SUCCESS =? rc); [|auto].
  destruct (malloc os _ && malloc os _); [|auto].
  destruct (QueryDisplayConfig os) as [rc' modes].
  destruct (ERROR_SUCCESS =? rc'); [|auto].
  destruct (DisplayConfigGetDeviceInfo os _) as [rc'' answer].
  destruct (ERROR_SUCCESS =? rc''); [|auto].
  unfold status_of_response.
  destruct (_ =? 0xD0); [auto|]. destruct (_ =? 0xD1); [auto|].
  destruct (_ =? 0xD3); auto.
Qed.

(** *** Enabled, and the target of the request *)

(** Either a call of the platform does not succeed, or all do and the
    platform answers with some response code. *)
Lemma query_fails_or_responds os :
  query_fails os \/ exists b, responds os b.
Proof.
  unfold query_fails, responds.
  destruct (Z.eq_dec (fst (fst (GetDisplayConfigBufferSizes os))) ERROR_SUCCESS);
    [|auto].
  destruct (malloc os (snd (fst (GetDisplayConfigBufferSizes os)) * sizeof_PATH_INFO));
    [|auto].
  destruct (malloc os (snd (GetDisplayConfigBufferSizes os) * sizeof_MODE_INFO));
    [|auto].
  destruct (Z.eq_dec (fst (QueryDisplayConfig os)) ERROR_SUCCESS); [|auto 6].
  destruct (Z.eq_dec (fst (DisplayConfigGetDeviceInfo os
              (set_target request (snd (QueryDisplayConfig os))))) ERROR_SUCCESS);
    [|auto 6].
  right. eexists. repeat split; assumption.
Qed.

Lemma status_of_response_2 b : status_of_response b = 2 <-> b = 0xD3.
Proof.
  unfold status_of_response.
  destruct (Z.eqb_spec b 0xD0); [lia|].
  destruct (Z.eqb_spec b 0xD1); [lia|].
  destruct (Z.eqb_spec b 0xD3); lia.
Qed.

(** X5. [IsDisplayHDREnabled] is true exactly when every call of the
    platform succeeds and the response code is [0xD3]; a failed query and
    every other response code give false. *)
Theorem IsDisplayHDREnabled_iff os :
  IsDisplayHDREnabled os = true <-> responds os 0xD3.
Proof.
  unfold IsDisplayHDREnabled. rewrite Z.eqb_eq. split.
  - intros H2. destruct (query_fails_or_responds os) as [Hf|[b Hb]].
    + rewrite (GetHDRDisplayStatus_fails os Hf) in H2. discriminate.
    + rewrite (GetHDRDisplayStatus_responds os b Hb) in H2.
      apply status_of_response_2 in H2. now subst.
  - intros Hb. now rewrite (GetHDRDisplayStatus_responds os _ Hb).
Qed.

(** A mode is of type target. *)
Definition is_target (m : DISPLAYCONFIG_MODE_INFO) : Prop :=
  infoType m = DISPLAYCONFIG_MODE_INFO_TYPE_TARGET.

Lemma set_target_no_target p modes :
  Forall (fun m => ~ is_target m) modes -> set_target p modes = p.
Proof.
  unfold set_target, is_target. revert p.
  induction modes as [|m modes IH]; intros p Hall; simpl; [reflexivity|].
  apply Forall_cons in Hall as [Hm Hall].
  destruct (Z.eqb_spec (infoType m) DISPLAYCONFIG_MODE_INFO_TYPE_TARGET);
    [contradiction|]. now apply IH.
Qed.

Lemma set_target_app p modes1 modes2 :
  set_target p (modes1 ++ modes2) = set_target (set_target p modes1) modes2.
Proof. unfold set_target. apply foldl_app. Qed.

Lemma set_target_at_last p before m after :
  is_target m ->
  Forall (fun m' => ~ is_target m') after ->
  set_target p (before ++ m :: after) =
  {| packet_type := packet_type p;
     packet_size := packet_size p;
     adapterId_LowPart := mode_adapterId_LowPart m;
     adapterId_HighPart := mode_adapterId_HighPart m;
     id := mode_id m;
     payload := payload p |}.
Proof.
  intros Hm Hafter.
  rewrite set_target_app.
  assert (Hkeep : forall q, packet_type (set_target q before) = packet_type q
                       /\ packet_size (set_target q before) = packet_size q
                       /\ payload (set_target q before) = payload q).
  { unfold set_target. induction before as [|m' before IH]; intros q; simpl; [auto|].
    destruct (infoType m' =? DISPLAYCONFIG_MODE_INFO_TYPE_TARGET);
      [|apply IH]. destruct (IH {| packet_type := packet_type q;
                                   packet_size := packet_size q;
                                   adapterId_LowPart := mode_adapterId_LowPart m';
                                   adapterId_HighPart := mode_adapterId_HighPart m';
                                   id := mode_id m';
                                   payload := payload q |}) as (H1 & H2 & H3).
    auto. }
  destruct (Hkeep p) as (H1 & H2 & H3).
  change (m :: after) with ([m] ++ after). rewrite set_target_app.
  rewrite (set_target_no_target _ after Hafter).
  unfold set_target at 1. simpl. unfold is_target in Hm.
  rewrite Hm, Z.eqb_refl. now rewrite H1, H2, H3.
Qed.

(** X6. The loop over the modes leaves in the header of a packet the
    adapter and the id of the last mode of type target, whatever the modes
    before it are, and changes nothing else of the packet; when no mode is
    of type target the packet keeps the adapter and the id it was built
    with. *)
Theorem set_target_last p modes :
  (Forall (fun m => ~ is_target m) modes -> set_target p modes = p)
  /\ (forall before m after,
        modes = before ++ m :: after -> is_target m ->
        Forall (fun m' => ~ is_target m') after ->
        set_target p modes =
        {| packet_type := packet_type p;
           packet_size := packet_size p;
           adapterId_LowPart := mode_adapterId_LowPart m;
           adapterId_HighPart := mode_adapterId_HighPart m;
           id := mode_id m;
           payload := payload p |}).
Proof.
  split; [apply set_target_no_target|].
  intros before m after -> Hm Hafter. now apply set_target_at_last.
Qed.

(** *** The toggle *)

(** [uint8_t set[] = {0x0A, 0, 0, 0, 0x18, 0, 0, 0, 0x14, 0x81, ...}]. *)
Definition set : request_packet :=
  {| packet_type := 0x0A;
     packet_size := 0x18;
     adapterId_LowPart := 0x8114;
     adapterId_HighPart := 0;
     id := 0x0104;
     payload := [0x01; 0; 0; 0] |}.

(** [set[20] = b], seen through [setPacket]. *)
Definition set_byte20 (b : Z) (p : request_packet) : request_packet :=
  {| packet_type := packet_type p;
     packet_size := packet_size p;
     adapterId_LowPart := adapterId_LowPart p;
     adapterId_HighPart := adapterId_HighPart p;
     id := id p;
     payload := <[0%nat := b]> (payload p) |}.

(** What [ToggleWindowsHDR] does that can be seen from outside: the notices
    it logs and the calls of [DisplayConfigSetDeviceInfo], whose return
    codes it does not read. *)
Inductive toggle_effect :=
| LogNotice (message : string)
| DisplayConfigSetDeviceInfo (setPacket : request_packet).

Definition ToggleWindowsHDR (os : Platform) : list toggle_effect :=
  let '(rc, pathCount, modeCount) := GetDisplayConfigBufferSizes os in
  if ERROR_SUCCESS =? rc then
    let pathsArray := malloc os (pathCount * sizeof_PATH_INFO) in
    let modesArray := malloc os (modeCount * sizeof_MODE_INFO) in
    if pathsArray && modesArray then
      let '(rc, modes) := QueryDisplayConfig os in
      if ERROR_SUCCESS =? rc then
        let setPacket := set_target set modes in
        let requestPacket := set_target request modes in
        let '(rc, answer) := DisplayConfigGetDeviceInfo os requestPacket in
        if ERROR_SUCCESS =? rc then
          if byte20 answer =? 0xD1 then (* HDR is OFF *)
            [ LogNotice "Toggle Windows HDR On (OFF => ON).";
              DisplayConfigSetDeviceInfo (set_byte20 1 setPacket) ]
          else if byte20 answer =? 0xD3 then (* HDR is ON *)
            [ LogNotice "Toggle Windows HDR Off (ON => OFF).";
              DisplayConfigSetDeviceInfo (set_byte20 0 setPacket) ]
          else []
        else []
      else []
    else []
  else [].

(** The packets [ToggleWindowsHDR] hands to [DisplayConfigSetDeviceInfo]. *)
Definition set_calls (effects : list toggle_effect) : list request_packet :=
  omap (fun e => match e with
                 | DisplayConfigSetDeviceInfo p => Some p
                 | LogNotice _ => None
                 end) effects.

Lemma ToggleWindowsHDR_fails os :
  query_fails os -> ToggleWindowsHDR os = [].
Proof.
  unfold query_fails, ToggleWindowsHDR.
  destruct (GetDisplayConfigBufferSizes os) as [[rc pathCount] modeCount]. simpl.
  destruct (Z.eqb_spec ERROR_SUCCESS rc) as [<-|Hrc]; [|reflexivity].
  destruct (malloc os (pathCount * sizeof_PATH_INFO)); simpl;
    [|reflexivity].
  destruct (malloc os (modeCount * sizeof_MODE_INFO)); simpl;
    [|reflexivity].
  destruct (QueryDisplayConfig os) as [rc modes]. simpl.
  destruct (Z.eqb_spec ERROR_SUCCESS rc) as [<-|Hrc]; [|reflexivity].
  destruct (DisplayConfigGetDeviceInfo os (set_target request modes))
    as [rc answer]. simpl.
  destruct (Z.eqb_spec ERROR_SUCCESS rc) as [<-|Hrc]; [|reflexivity].
  intros [H|[H|[H|[H|H]]]]; congruence.
Qed.

Lemma ToggleWindowsHDR_responds os b :
  responds os b ->
  ToggleWindowsHDR os =
  if b =? 0xD1 then
    [ LogNotice "Toggle Windows HDR On (OFF => ON).";
      DisplayConfigSetDeviceInfo
        (set_byte20 1 (set_target set (snd (QueryDisplayConfig os)))) ]
  else if b =? 0xD3 then
    [ LogNotice "Toggle Windows HDR Off (ON => OFF).";
      DisplayConfigSetDeviceInfo
        (set_byte20 0 (set_target set (snd (QueryDisplayConfig os)))) ]
  else [].
Proof.
  unfold responds, ToggleWindowsHDR.
  destruct (GetDisplayConfigBufferSizes os) as [[rc pathCount] modeCount]. simpl.
  intros (-> & -> & -> & H). rewrite Z.eqb_refl. simpl.
  destruct (QueryDisplayConfig os) as [rc modes]. simpl in *.
  destruct H as (-> & H). rewrite Z.eqb_refl.
  destruct (DisplayConfigGetDeviceInfo os (set_target request modes))
    as [rc answer]. simpl in *.
  destruct H as (-> & ->). now rewrite Z.eqb_refl.
Qed.

Lemma byte20_set_byte20 b modes :
  byte20 (set_byte20 b (set_target set modes)) = b.
Proof.
  assert (Hpayload : forall q, payload (set_target q modes) = payload q).
  { unfold set_target. induction modes as [|m modes IH]; intros q; simpl;
      [reflexivity|].
    destruct (infoType m =? DISPLAYCONFIG_MODE_INFO_TYPE_TARGET);
      [|apply IH]. now rewrite IH. }
  unfold byte20, set_byte20. simpl. now rewrite Hpayload.
Qed.

(** X7. [ToggleWindowsHDR] acts exactly when [GetHDRDisplayStatus] reports
    a capable display, and asks for the state the display is not in: with
    status 0 (query failed, not capable or unknown response) it makes no
    call and logs nothing; with status 1 (off) it makes one call of
    [DisplayConfigSetDeviceInfo] with byte 20 set to 1; with status 2 (on)
    one call with byte 20 set to 0. *)
Theorem ToggleWindowsHDR_flips_status os :
  (GetHDRDisplayStatus os = 0 <-> ToggleWindowsHDR os = [])
  /\ (GetHDRDisplayStatus os = 1 ->
      exists p, set_calls (ToggleWindowsHDR os) = [p] /\ byte20 p = 1)
  /\ (GetHDRDisplayStatus os = 2 ->
      exists p, set_calls (ToggleWindowsHDR os) = [p] /\ byte20 p = 0)
  /\ (length (set_calls (ToggleWindowsHDR os)) <= 1)%nat.
Proof.
  destruct (query_fails_or_responds os) as [Hf|[b Hb]].
  - rewrite (GetHDRDisplayStatus_fails os Hf), (ToggleWindowsHDR_fails os Hf).
    simpl. repeat split; try discriminate; auto.
  - rewrite (GetHDRDisplayStatus_responds os b Hb),
            (ToggleWindowsHDR_responds os b Hb).
    unfold status_of_response.
    destruct (Z.eqb_spec b 0xD0) as [->|H0]; [simpl; repeat split; try discriminate; auto|].
    destruct (Z.eqb_spec b 0xD1) as [->|H1].
    { simpl. repeat split; try discriminate; auto.
      intros _. eexists. split; [reflexivity|].
      apply byte20_set_byte20. }
    destruct (Z.eqb_spec b 0xD3) as [->|H3].
    { simpl. repeat split; try discriminate; auto.
      intros _. eexists. split; [reflexivity|].
      apply byte20_set_byte20. }
    simpl. repeat split; try discriminate; auto.
Qed.

(** X8. When the platform reports a mode of type target, the call of
    [DisplayConfigSetDeviceInfo] is addressed to the adapter and the id the
    status was asked for, those of the last such mode; it keeps the type
    [0x0A] and the size [0x18] of the set packet. *)
Theorem ToggleWindowsHDR_same_target os p before m after :
  p ∈ set_calls (ToggleWindowsHDR os) ->
  snd (QueryDisplayConfig os) = before ++ m :: after ->
  is_target m ->
  Forall (fun m' => ~ is_target m') after ->
  let requestPacket := set_target request (snd (QueryDisplayConfig os)) in
  adapterId_LowPart p = adapterId_LowPart requestPacket
  /\ adapterId_HighPart p = adapterId_HighPart requestPacket
  /\ id p = id requestPacket
  /\ adapterId_LowPart p = mode_adapterId_LowPart m
  /\ adapterId_HighPart p = mode_adapterId_HighPart m
  /\ id p = mode_id m
  /\ packet_type p = 0x0A /\ packet_size p = 0x18.
Proof.
  intros Hp Hmodes Hm Hafter requestPacket. subst requestPacket.
  rewrite Hmodes in *.
  rewrite (set_target_at_last request before m after Hm Hafter).
  simpl.
  assert (Hset : p = set_byte20 1 (set_target set (before ++ m :: after))
              \/ p = set_byte20 0 (set_target set (before ++ m :: after))).
  { destruct (query_fails_or_responds os) as [Hf|[b Hb]].
    - rewrite (ToggleWindowsHDR_fails os Hf) in Hp. inversion Hp.
    - rewrite (ToggleWindowsHDR_responds os b Hb), Hmodes in Hp.
      destruct (b =? 0xD1); [|destruct (b =? 0xD3)]; simpl in Hp.
      + apply list_elem_of_singleton in Hp. now left.
      + apply list_elem_of_singleton in Hp. now right.
      + inversion Hp. }
  rewrite (set_target_at_last set before m after Hm Hafter) in Hset.
  destruct Hset as [-> | ->]; simpl; repeat split; reflexivity.
Qed.

End HDR.

(** ** The screen saver manager *)

Module ScreenSaver.

(** An [IOSScreenSaver] made by the platform, by its identity, and the
    [COSScreenSaverManager] that is built around one. *)
Definition IOSScreenSaver := nat.

Inductive COSScreenSaverManager :=
| Manager (impl : IOSScreenSaver).

(** [m_screenSaverManager]: empty or owning a manager. *)
Definition state := option COSScreenSaverManager.

(** One call of [GetOSScreenSaver]. The virtual [GetOSScreenSaverImpl()] is
    the argument [GetOSScreenSaverImpl], its answer when it is asked, [None]
    being the null pointer. The result is the pointer returned, the new
    [m_screenSaverManager], and whether the virtual has been called. *)
Definition GetOSScreenSaver (GetOSScreenSaverImpl : option IOSScreenSaver)
    (m_screenSaverManager : state) : option COSScreenSaverManager * state * bool :=
  match m_screenSaverManager with
  | Some manager => (Some manager, m_screenSaverManager, false)
  | None =>
      match GetOSScreenSaverImpl with
      | Some impl => (Some (Manager impl), Some (Manager impl), true)
      | None => (None, None, true)
      end
  end.

(** [DestroyWindowSystem]: resets [m_screenSaverManager]; returns false. *)
Definition DestroyWindowSystem (m_screenSaverManager : state) : bool * state :=
  (false, None).

(** Calls of [GetOSScreenSaver] one after the other, [answers] being what
    the virtual would answer at each of them: the pointers returned with
    the flags of the calls of the virtual, and the last state. *)
Fixpoint GetOSScreenSaver_calls (answers : list (option IOSScreenSaver))
    (m : state) : list (option COSScreenSaverManager * bool) * state :=
  match answers with
  | [] => ([], m)
  | answer :: answers' =>
      let '(ptr, m', asked) := GetOSScreenSaver answer m in
      let '(results, m'') := GetOSScreenSaver_calls answers' m' in
      ((ptr, asked) :: results, m'')
  end.

Lemma GetOSScreenSaver_calls_cached answers manager :
  GetOSScreenSaver_calls answers (Some manager)
  = (replicate (length answers) (Some manager, false), Some manager).
Proof.
  induction answers as [|answer answers IH]; [reflexivity|].
  simpl. now rewrite IH.
Qed.

(** X15. The screen saver manager is made once. After a call of
    [GetOSScreenSaver] that returned a manager, every later call returns
    that same manager and does not ask the platform again, whatever the
    platform would answer; a call for which the platform has no
    implementation returns null and leaves the next call to ask again; and
    after [DestroyWindowSystem] the platform is asked anew. *)
Theorem GetOSScreenSaver_made_once :
  (forall answer m manager m' asked answers,
      GetOSScreenSaver answer m = (Some manager, m', asked) ->
      GetOSScreenSaver_calls answers m'
      = (replicate (length answers) (Some manager, false), Some manager))
  /\ (forall m, GetOSScreenSaver None m = (None, None, true) \/
                exists manager, m = Some manager
                  /\ GetOSScreenSaver None m = (Some manager, m, false))
  /\ (forall answer m m' asked,
        GetOSScreenSaver answer m = (None, m', asked) ->
        forall impl, GetOSScreenSaver (Some impl) m'
                     = (Some (Manager impl), Some (Manager impl), true))
  /\ (forall m impl,
        GetOSScreenSaver (Some impl) (snd (DestroyWindowSystem m))
        = (Some (Manager impl), Some (Manager impl), true)).
Proof.
  split; [|split; [|split]].
  - intros answer [manager0|] manager m' asked answers; simpl.
    + intros [= <- <- <-]. apply GetOSScreenSaver_calls_cached.
    + destruct answer as [impl|]; [|discriminate].
      intros [= <- <- <-]. apply GetOSScreenSaver_calls_cached.
  - intros [manager|]; [right; eauto | now left].
  - intros answer [manager0|] m' asked; simpl; [discriminate|].
    destruct answer as [impl0|]; [discriminate|]. now intros [= <- <-].
  - reflexivity.
Qed.

End ScreenSaver.

(** ** The window and the desktop record *)

(** Double-precision numbers, for [(int)(0.965 * height)]. *)
Module F64.

Definition float := spec_float.

Definition prec : Z := 53.
Definition emax : Z := 1024.

(** An [int] as a [double]: every [int] is a binary64 number. *)
Definition of_int (z : Z) : float := binary_normalize prec emax z 0 false.

Definition mul (x y : float) : float := SFmul prec emax x y.

(** The literal [0.965]: the binary64 number nearest to it, with bit
    pattern [0x3FEEE147AE147AE1]. *)
Definition c_0_965 : float := S754_finite false 8691947280825057 (-53).

(** [(int)x]: the fractional part is dropped. The conversion is defined in
    C++ when the result fits an [int], which [0.965 * height] does for
    every [int] height; for a NaN or an infinity, which it has no meaning
    for, this gives 0. *)
Definition to_int (x : float) : Z :=
  match x with
  | S754_finite s m e =>
      cond_Zopp s (if 0 <=? e then Zpos m * 2 ^ e else Zpos m / 2 ^ (- e))
  | _ => 0
  end.

End F64.

Module Window.

(** [RESOLUTION_INFO] with all the fields this file writes. *)
Record OVERSCAN := {
  left : Z;
  top : Z;
  right : Z;
  bottom : Z
}.

Record RESOLUTION_INFO := {
  Overscan : OVERSCAN;
  bFullScreen : bool;
  iSubtitles : Z;
  dwFlags : Z;
  fRefreshRate : F32.float;
  fPixelRatio : F32.float;
  iWidth : Z;
  iHeight : Z;
  iScreenWidth : Z;
  iScreenHeight : Z;
  strMode : string;
  strOutput : string
}.

(** [(int)(0.965 * height)]. *)
Definition subtitles (height : Z) : Z :=
  F64.to_int (F64.mul F64.c_0_965 (F64.of_int height)).

Definition one : F32.float := Eval cbv in F32.of_Z 1 0. (* 1.0f *)

(** [UpdateResolutions] on the record [GetResolutionInfo(RES_WINDOW)]. *)
Definition UpdateResolutions (window : RESOLUTION_INFO) : RESOLUTION_INFO :=
  let iWidth' := if iWidth window =? 0 then 720 else iWidth window in
  let iHeight' := if iHeight window =? 0 then 480 else iHeight window in
  {| Overscan := Overscan window;
     bFullScreen := false;
     iSubtitles := if iSubtitles window =? 0 then subtitles iHeight'
                   else iSubtitles window;
     dwFlags := dwFlags window;
     fRefreshRate := fRefreshRate window;
     fPixelRatio := one;
     iWidth := iWidth';
     iHeight := iHeight';
     iScreenWidth := iWidth';
     iScreenHeight := iHeight';
     strMode := "Windowed";
     strOutput := strOutput window |}.

Section Desktop.

(** [StringUtils::Format], which is not part of the sources, at the two
    format strings ["%s: %dx%d"] and [" @ %.2fHz"], and the three flags of
    the mode that the name shows. *)
Variable Format_mode : string -> Z -> Z -> string.
Variable Format_Hz : F32.float -> string.
Variable D3DPRESENTFLAG_INTERLACED : Z.
Variable D3DPRESENTFLAG_MODE3DTB : Z.
Variable D3DPRESENTFLAG_MODE3DSBS : Z.

(** [dwFlags & flag], as a condition. *)
Definition has_flag (dwFlags flag : Z) : bool :=
  negb (Z.land dwFlags (MachineInt.to_uint flag) =? 0).

(** [UpdateDesktopResolution]; [newRes] is the record as it was. *)
Definition UpdateDesktopResolution (newRes : RESOLUTION_INFO) (output : string)
    (width height : Z) (refreshRate : F32.float) (dwFlags : Z)
  : RESOLUTION_INFO :=
  let strMode0 := Format_mode output width height in
  let strMode1 := if F32.ltb one refreshRate
                  then strMode0 +:+ Format_Hz refreshRate else strMode0 in
  let strMode2 := if has_flag dwFlags D3DPRESENTFLAG_INTERLACED
                  then strMode1 +:+ "i" else strMode1 in
  let strMode3 := if has_flag dwFlags D3DPRESENTFLAG_MODE3DTB
                  then strMode2 +:+ "tab" else strMode2 in
  let strMode4 := if has_flag dwFlags D3DPRESENTFLAG_MODE3DSBS
                  then strMode3 +:+ "sbs" else strMode3 in
  {| Overscan := {| left := 0; top := 0; right := width; bottom := height |};
     bFullScreen := true;
     iSubtitles := subtitles height;
     dwFlags := dwFlags;
     fRefreshRate := refreshRate;
     fPixelRatio := one;
     iWidth := width;
     iHeight := height;
     iScreenWidth := width;
     iScreenHeight := height;
     strMode := strMode4;
     strOutput := output |}.

End Desktop.

Example subtitles_480 : subtitles 480 = 463.
Proof. vm_compute. reflexivity. Qed.

Example subtitles_1080 : subtitles 1080 = 1042.
Proof. vm_compute. reflexivity. Qed.

Example subtitles_minus_5 : subtitles (-5) = -4.
Proof. vm_compute. reflexivity. Qed.

(** X16. [UpdateResolutions] gives the window record a width and a height
    that are not 0, 720 and 480 where they were 0 and the old ones
    elsewhere, makes the screen size the window size, and keeps a subtitle
    position that was set; doing it twice is doing it once. *)
Theorem UpdateResolutions_normalizes window :
  let window' := UpdateResolutions window in
  UpdateResolutions window' = window'
  /\ iWidth window' <> 0 /\ iHeight window' <> 0
  /\ iScreenWidth window' = iWidth window'
  /\ iScreenHeight window' = iHeight window'
  /\ (iWidth window <> 0 -> iWidth window' = iWidth window)
  /\ (iHeight window <> 0 -> iHeight window' = iHeight window)
  /\ (iWidth window = 0 -> iWidth window' = 720)
  /\ (iHeight window = 0 -> iHeight window' = 480)
  /\ (iSubtitles window <> 0 -> iSubtitles window' = iSubtitles window).
Proof.
  intros window'. subst window'. unfold UpdateResolutions. simpl.
  destruct (Z.eqb_spec (iWidth window) 0) as [Hw|Hw];
    destruct (Z.eqb_spec (iHeight window) 0) as [Hh|Hh];
    destruct (Z.eqb_spec (iSubtitles window) 0) as [Hs|Hs]; simpl;
    repeat match goal with
           | |- context [?x =? 0] =>
               destruct (Z.eqb_spec x 0); try lia; try congruence
           end;
    repeat split; try lia; try congruence.
Qed.

End Window.

(** The record of the catalogue in a full record. *)
Definition catalogue_view (r : Window.RESOLUTION_INFO) : RESOLUTION_INFO :=
  {| iScreenWidth := Window.iScreenWidth r;
     iScreenHeight := Window.iScreenHeight r;
     dwFlags := Window.dwFlags r;
     fRefreshRate := Window.fRefreshRate r |}.

(** X17. A mode described by [UpdateDesktopResolution] is listed. When the
    store holds the record it makes for a width, a height, a rate that is
    not a NaN and flags at an index [RefreshRates] scans, [RefreshRates]
    for that width, height and flags returns an entry of exactly that
    rate; when the index is one [ScreenResolutions] scans, and the mask is
    a non-negative [int] value, [ScreenResolutions] returns an entry of
    that width, height and masked flags. *)
Theorem UpdateDesktopResolution_listed
    (Format_mode : string -> Z -> Z -> string) (Format_Hz : F32.float -> string)
    (INTERLACED MODE3DTB MODE3DSBS : Z)
    (D3DPRESENTFLAG_MODEMASK : Z) (RES_DESKTOP RES_CUSTOM : nat)
    (settings : DisplaySettings) (idx : nat)
    (newRes : Window.RESOLUTION_INFO) (output : string)
    (w h : Z) (refreshRate : F32.float) (dw : Z) :
  GetResolutionInfo settings idx
  = catalogue_view (Window.UpdateDesktopResolution Format_mode Format_Hz
                      INTERLACED MODE3DTB MODE3DSBS
                      newRes output w h refreshRate dw) ->
  (idx < ResolutionInfoSize settings)%nat ->
  ((RES_DESKTOP <= idx)%nat -> F32.is_nan refreshRate = false ->
   exists rr,
     rr ∈ RefreshRates D3DPRESENTFLAG_MODEMASK RES_DESKTOP settings
                       w h dw
     /\ F32.eqb (RefreshRate rr) refreshRate = true)
  /\ ((RES_CUSTOM <= idx)%nat -> 0 <= D3DPRESENTFLAG_MODEMASK < 2 ^ 31 ->
      forall preferred, exists e,
        e ∈ ScreenResolutions D3DPRESENTFLAG_MODEMASK RES_CUSTOM settings preferred
        /\ width e = w /\ height e = h
        /\ flags e = Z.land dw D3DPRESENTFLAG_MODEMASK).
Proof.
  intros Hrec Hsize. split.
  - intros Hidx Hnan.
    destruct (RefreshRates_rounds_inv D3DPRESENTFLAG_MODEMASK RES_DESKTOP settings
                w h dw (ResolutionInfoSize settings - RES_DESKTOP))
      as [_ Hc _].
    rewrite <- RefreshRates_loop_rounds in Hc.
    assert (Hm : mode_is D3DPRESENTFLAG_MODEMASK settings w h dw idx = true).
    { apply mode_is_true. rewrite Hrec. simpl. auto. }
    assert (Hrate : rate_of settings idx = refreshRate)
      by (unfold rate_of; now rewrite Hrec).
    setoid_rewrite (std_sort_Permutation rrSortPredicate).
    destruct (Hc idx ltac:(lia) Hm) as [Hin|(idx' & _ & _ & Heq & Hin)].
    + exists (rate_entry settings idx). split; [exact Hin|]. simpl.
      rewrite Hrate. now apply F32.eqb_refl.
    + exists (rate_entry settings idx'). split; [exact Hin|]. simpl.
      now rewrite <- Hrate.
  - intros Hidx Hmask preferred.
    destruct (ScreenResolutions_loop_inv D3DPRESENTFLAG_MODEMASK RES_CUSTOM
                settings preferred Hmask) as [Hsound Hfirst Hcomplete _ _ _].
    setoid_rewrite (std_sort_Permutation resSortPredicate).
    assert (Hkey : exists e,
               e ∈ ScreenResolutions_loop D3DPRESENTFLAG_MODEMASK RES_CUSTOM
                     settings preferred
               /\ key D3DPRESENTFLAG_MODEMASK e
                  = info_key D3DPRESENTFLAG_MODEMASK (GetResolutionInfo settings idx)).
    { destruct (decide (idx = RES_CUSTOM)) as [->|Hne].
      - exists (new_entry D3DPRESENTFLAG_MODEMASK settings RES_CUSTOM).
        split; [|now apply key_new_entry].
        apply (list_elem_of_lookup_2 _ 0%nat). apply Hfirst. lia.
      - destruct (Hcomplete idx ltac:(lia)) as (i & e & _ & He & Hk).
        exists e. split; [now apply (list_elem_of_lookup_2 _ i) | exact Hk]. }
    destruct Hkey as (e & He & Hk). exists e. split; [exact He|].
    destruct (Hsound e He) as (idx0 & _ & ->).
    rewrite key_new_entry in Hk by exact Hmask.
    unfold info_key in Hk. rewrite Hrec in Hk. simpl in Hk.
    injection Hk as Hw Hh Hf.
    unfold new_entry. simpl.
    rewrite <- (to_int_mode_bits D3DPRESENTFLAG_MODEMASK dw Hmask). auto.
Qed.

(** ** Closed instances

    The constants the sources do not define are fixed here to one instance:
    the mode mask to the three bits [0x19], the desktop mode to index 16 and
    the first custom mode to index 17, the success code to 0, the target
    mode type to 2, the sizes of a path and of a mode record to 72 and 64.
    What is refuted here on one instance holds for every other one:
    [ScreenResolutions_first_not_compared] has the constants as parameters,
    and the remaining refutations do not read them. *)

Module Examples.

Definition MODEMASK : Z := 0x19.
Definition DESKTOP : nat := 16.
Definition CUSTOM : nat := 17.

Definition mode_720 (rate : F32.float) : RESOLUTION_INFO :=
  {| iScreenWidth := 1280; iScreenHeight := 720; dwFlags := 0;
     fRefreshRate := rate |}.

(** The sixteen records below the desktop mode. *)
Definition low_records : list RESOLUTION_INFO := replicate 16 (mode_720 F32.f50).

(** A store whose desktop mode is 1080 at 60 Hz and whose custom modes are
    1080 at 60, at 59.94 and at 60 Hz. *)
Definition store_1080 : DisplaySettings :=
  settings_of_vector (low_records ++ [mode_1080 F32.f60] ++ three_1080)
                     (mode_720 F32.zero).

(** A store whose two custom modes are the same 1080 mode. *)
Definition store_twins : DisplaySettings :=
  settings_of_vector
    (low_records ++ [mode_720 F32.f50; mode_1080 F32.f60; mode_1080 F32.f60])
    (mode_720 F32.zero).

Definition entry_1080 (index : Z) : RESOLUTION_WHR :=
  {| width := 1920; height := 1080; flags := 0; ResInfo_Index := index |}.

Definition rate (r : F32.float) (index : Z) : REFRESHRATE :=
  {| RefreshRate := r; RR_ResInfo_Index := index |}.

(** The two entries of each of these vectors have the same key: which of
    them [std::sort] puts first is not fixed, and the vectors are given up
    to order. *)
Example ScreenResolutions_store_1080 :
  ScreenResolutions MODEMASK CUSTOM store_1080 F32.f59_94
  ≡ₚ [entry_1080 17; entry_1080 18].
Proof.
  unfold ScreenResolutions. rewrite std_sort_Permutation.
  vm_compute. reflexivity.
Qed.

Example ScreenResolutions_store_twins :
  ScreenResolutions MODEMASK CUSTOM store_twins F32.f59_94
  ≡ₚ [entry_1080 17; entry_1080 18].
Proof.
  unfold ScreenResolutions. rewrite std_sort_Permutation.
  vm_compute. reflexivity.
Qed.

Example RefreshRates_store_1080 :
  RefreshRates MODEMASK DESKTOP store_1080 1920 1080 0
  = [rate F32.f59_94 18; rate F32.f60 16].
Proof. vm_compute. reflexivity. Qed.

Example DefaultRefreshRate_early_exit :
  DefaultRefreshRate DESKTOP store_1080
    [rate F32.f50 1; rate F32.f59_94 2; rate F32.f60 3]
  = Returns (rate F32.f60 3).
Proof. vm_compute. reflexivity. Qed.

(** A store whose desktop mode runs at 52 Hz. *)
Definition store_52 : DisplaySettings :=
  settings_of_vector (low_records ++ [mode_1080 F32.f52]) (mode_720 F32.zero).

Example DefaultRefreshRate_tie_keeps_first :
  DefaultRefreshRate DESKTOP store_52
    [rate F32.f55 1; rate (F32.of_Z 54 0) 2; rate F32.f50 3]
  = Returns (rate (F32.of_Z 54 0) 2).
Proof. vm_compute. reflexivity. Qed.

(** A platform whose first call fails and one that answers [0xD0]. *)
Definition os_failing : Platform :=
  {| GetDisplayConfigBufferSizes := (5, 0, 0);
     malloc := fun _ => true;
     QueryDisplayConfig := (0, []);
     DisplayConfigGetDeviceInfo := fun p => (0, p) |}.

Definition os_answering (b : Z) : Platform :=
  {| GetDisplayConfigBufferSizes := (0, 1, 2);
     malloc := fun _ => true;
     QueryDisplayConfig :=
       (0, [ {| infoType := 1; mode_id := 0;
                mode_adapterId_LowPart := 7; mode_adapterId_HighPart := 0 |};
             {| infoType := 2; mode_id := 4;
                mode_adapterId_LowPart := 7; mode_adapterId_HighPart := 0 |} ]);
     DisplayConfigGetDeviceInfo := fun p =>
       (0, {| packet_type := packet_type p; packet_size := packet_size p;
              adapterId_LowPart := adapterId_LowPart p;
              adapterId_HighPart := adapterId_HighPart p;
              id := id p; payload := b :: drop 1 (payload p) |}) |}.

Example GetHDRDisplayStatus_on :
  GetHDRDisplayStatus 0 2 72 64 (os_answering 0xD3) = 2.
Proof. reflexivity. Qed.

(** C1 is not met by the code. On the store [store_twins], whose two
    custom modes (indices 17 and 18) are the same 1920x1080 mode,
    [ScreenResolutions] returns one entry for each of them: the vector
    holds, in some order, the entries of index 17 and of index 18, the two
    have the same key (1920, 1080, 0), and so the keys of the returned
    vector are not unique. The entry of index 17 is at position 0 during
    the scan, which [AddResolution] skips as if it held the desktop mode. *)
Theorem ScreenResolutions_twins_share_key :
  ScreenResolutions MODEMASK CUSTOM store_twins F32.f59_94
    ≡ₚ [entry_1080 17; entry_1080 18]
  /\ key MODEMASK (entry_1080 17) = key MODEMASK (entry_1080 18)
  /\ ~ unique_keys MODEMASK
        (ScreenResolutions MODEMASK CUSTOM store_twins F32.f59_94).
Proof.
  assert (Hperm : ScreenResolutions MODEMASK CUSTOM store_twins F32.f59_94
                  ≡ₚ [entry_1080 17; entry_1080 18]).
  { unfold ScreenResolutions. rewrite std_sort_Permutation.
    vm_compute. reflexivity. }
  split; [exact Hperm|]. split; [reflexivity|].
  rewrite unique_keys_NoDup, Hperm. intros Hnd.
  apply NoDup_cons in Hnd as [Hnotin _]. apply Hnotin. left.
Qed.

(** One step of the dedup on the store [store_1080]: the record at index
    19 (1080 at 60 Hz) matches the entry at position 1 and is discarded
    when 59.94 is preferred, and takes the entry over when 60 is. *)
Lemma AddResolution_step_store_1080 :
  AddResolution MODEMASK store_1080 [entry_1080 17; entry_1080 18] 19 F32.f59_94
  = [entry_1080 17; entry_1080 18]
  /\ AddResolution MODEMASK store_1080 [entry_1080 17; entry_1080 18] 19 F32.f60
    = [entry_1080 17; entry_1080 19].
Proof.
  split.
  - apply (proj1 (AddResolution_step MODEMASK store_1080
                    [entry_1080 17; entry_1080 18] 19 F32.f59_94)
             1%nat (entry_1080 18)); [lia | reflexivity | reflexivity |].
    intros j r' Hj. lia.
  - apply (proj1 (AddResolution_step MODEMASK store_1080
                    [entry_1080 17; entry_1080 18] 19 F32.f60)
             1%nat (entry_1080 18)); [lia | reflexivity | reflexivity |].
    intros j r' Hj. lia.
Defined.

(** C4 with the three records at the indices 17, 18 and 19. *)
Lemma dedup_three_1080_at_17 :
  length low_records = 16%nat
  /\ ScreenResolutions_loop MODEMASK CUSTOM
       (settings_of_vector ((low_records ++ [mode_1080 F32.f60]) ++ three_1080)
                           (mode_720 F32.zero)) F32.f59_94
     = [entry_1080 17; entry_1080 18].
Proof.
  split; [reflexivity|].
  apply (dedup_three_1080 MODEMASK CUSTOM (low_records ++ [mode_1080 F32.f60])
           (mode_720 F32.zero) eq_refl).
Defined.

(** C5 on the entries 50.0 and 55.0. *)
Lemma DefaultRefreshRate_nearest_50_55 :
  exists i best,
    DefaultRefreshRate DESKTOP store_52 [rate F32.f50 1; rate F32.f55 2] = Returns best
    /\ [rate F32.f50 1; rate F32.f55 2] !! i = Some best.
Proof.
  destruct (proj1 (DefaultRefreshRate_nearest_earliest DESKTOP) store_52
              [rate F32.f50 1; rate F32.f55 2] ltac:(discriminate))
    as (i & best & Hret & Hi & _).
  exists i, best. split; [exact Hret | exact Hi].
Defined.

(** C6 fails as stated: on the empty vector no [InvalidArgument] is
    reported. *)
Lemma DefaultRefreshRate_empty_no_error :
  DefaultRefreshRate DESKTOP store_1080 [] <> Fails InvalidArgument.
Proof. discriminate. Qed.

(** The corrected C6 on a vector of one entry. *)
Lemma DefaultRefreshRate_precondition_one :
  [rate F32.f50 1] <> []
  /\ exists r, DefaultRefreshRate DESKTOP store_52 [rate F32.f50 1] = Returns r.
Proof.
  split; [discriminate|].
  apply (proj2 (proj2 (proj2 (proj2 (DefaultRefreshRate_precondition DESKTOP store_52))))).
  discriminate.
Defined.

(** C9 fails as stated: a failed query and a display that is not HDR
    capable give the same status. *)
Lemma GetHDRDisplayStatus_unknown_not_distinct :
  ~ unknown_is_distinct 0 2 72 64.
Proof.
  intros H. apply (H os_failing (os_answering 0xD0)).
  - left. discriminate.
  - repeat split.
  - reflexivity.
Qed.

(** The corrected C9 on the failing platform. *)
Lemma GetHDRDisplayStatus_failing_zero :
  query_fails 0 2 72 64 os_failing
  /\ GetHDRDisplayStatus 0 2 72 64 os_failing = 0.
Proof.
  assert (Hf : query_fails 0 2 72 64 os_failing) by (left; discriminate).
  split; [exact Hf|].
  apply (proj1 (GetHDRDisplayStatus_unknown_is_zero 0 2 72 64) os_failing Hf).
Defined.

(** C10 fails as stated: with one client registered, its [FrameMove] is
    called while the critical section is held. *)
Lemma DriveRenderLoop_callback_under_lock :
  ~ RenderLoop.callbacks_outside_lock
      (RenderLoop.events_of RenderLoop.DriveRenderLoop [7%nat]).
Proof. intros H. apply (H 7%nat). left. Qed.

End Examples.

(** ** Closed instances of the further properties *)

Module MoreExamples.

Import Examples.

(** A store whose desktop mode is 1080 at 60 Hz and whose custom modes are
    1080 at 60 Hz, 720 at 50 Hz, 1080 at 59.94 Hz and 720 at 60 Hz. *)
Definition store_mixed : DisplaySettings :=
  settings_of_vector
    (low_records ++ [mode_1080 F32.f60; mode_1080 F32.f60; mode_720 F32.f50;
                     mode_1080 F32.f59_94; mode_720 F32.f60])
    (mode_720 F32.zero).

Definition entry_720 (index : Z) : RESOLUTION_WHR :=
  {| width := 1280; height := 720; flags := 0; ResInfo_Index := index |}.

(** The scan keeps the records 17, 18 and 19 (the record 20 matches the
    entry of 18 and is discarded). The entries of 17 and 19 have the same
    key, so the returned vector is given up to order. *)
Example ScreenResolutions_store_mixed :
  ScreenResolutions MODEMASK CUSTOM store_mixed F32.f59_94
  ≡ₚ [entry_1080 17; entry_720 18; entry_1080 19].
Proof.
  unfold ScreenResolutions. rewrite std_sort_Permutation.
  vm_compute. reflexivity.
Qed.

Example RefreshRates_store_mixed :
  RefreshRates MODEMASK DESKTOP store_mixed 1280 720 0
  = [rate F32.f50 18; rate F32.f60 20].
Proof. vm_compute. reflexivity. Qed.

(** The rates of a store of twenty-one records are finite. *)
Lemma store_mixed_finite idx :
  F32Arith.is_finite (rate_of store_mixed idx) = true.
Proof. do 22 (destruct idx as [|idx]; [reflexivity|]). reflexivity. Qed.

(** X8 on a platform that reports HDR off. *)
Lemma ToggleWindowsHDR_same_target_off :
  adapterId_LowPart
    (set_byte20 1 (set_target 2 set (snd (QueryDisplayConfig (os_answering 0xD1)))))
  = 7
  /\ id (set_byte20 1 (set_target 2 set (snd (QueryDisplayConfig (os_answering 0xD1)))))
     = 4.
Proof.
  pose proof (ToggleWindowsHDR_same_target 0 2 72 64 (os_answering 0xD1)
                (set_byte20 1 (set_target 2 set
                                 (snd (QueryDisplayConfig (os_answering 0xD1)))))
                [ {| infoType := 1; mode_id := 0;
                     mode_adapterId_LowPart := 7; mode_adapterId_HighPart := 0 |} ]
                {| infoType := 2; mode_id := 4;
                   mode_adapterId_LowPart := 7; mode_adapterId_HighPart := 0 |}
                []
                ltac:(vm_compute; left) eq_refl eq_refl (Forall_nil_2 _)) as H.
  simpl in H. destruct H as (_ & _ & _ & Hlow & _ & Hid & _).
  split; [exact Hlow | exact Hid].
Defined.

(** A store whose custom modes are 1080 at 60 Hz and 720 at 50 Hz: the two
    entries of its catalogue have different keys, so their order after the
    sort is fixed. *)
Definition store_pair : DisplaySettings :=
  settings_of_vector
    (low_records ++ [mode_1080 F32.f60; mode_1080 F32.f60; mode_720 F32.f50])
    (mode_720 F32.zero).

Example ScreenResolutions_store_pair :
  ScreenResolutions MODEMASK CUSTOM store_pair F32.f59_94
  = [entry_720 18; entry_1080 17].
Proof. vm_compute. reflexivity. Qed.

(** X9 on the store [store_pair]. *)
Lemma ScreenResolutions_ascending_store_pair :
  resSortPredicate (entry_1080 17) (entry_720 18) = false
  /\ (width (entry_720 18) < width (entry_1080 17)
      \/ (width (entry_720 18) = width (entry_1080 17)
          /\ (height (entry_720 18) < height (entry_1080 17)
              \/ (height (entry_720 18) = height (entry_1080 17)
                  /\ flags (entry_720 18) <= flags (entry_1080 17))))).
Proof.
  apply (ScreenResolutions_ascending MODEMASK CUSTOM store_pair F32.f59_94
           0%nat 1%nat (entry_720 18) (entry_1080 17));
    [lia | vm_compute; reflexivity | vm_compute; reflexivity].
Defined.

(** X10 on the store [store_mixed]. *)
Lemma ScreenResolutions_sound_complete_store_mixed :
  0 <= MODEMASK < 2 ^ 31
  /\ (length (ScreenResolutions MODEMASK CUSTOM store_mixed F32.f59_94)
      <= ResolutionInfoSize store_mixed - CUSTOM)%nat.
Proof.
  assert (Hmask : 0 <= MODEMASK < 2 ^ 31) by (unfold MODEMASK; lia).
  split; [exact Hmask|].
  apply (ScreenResolutions_sound_complete MODEMASK CUSTOM store_mixed F32.f59_94 Hmask).
Defined.

(** X11 on the store [store_mixed]: the record at index 19 has the
    preferred rate 59.94. *)
Lemma ScreenResolutions_prefers_rate_store_mixed :
  exists idx',
    (CUSTOM < idx' < ResolutionInfoSize store_mixed)%nat
    /\ new_entry MODEMASK store_mixed idx'
       ∈ ScreenResolutions MODEMASK CUSTOM store_mixed F32.f59_94
    /\ info_key MODEMASK (GetResolutionInfo store_mixed idx')
       = info_key MODEMASK (GetResolutionInfo store_mixed 19)
    /\ F32.eqb (fRefreshRate (GetResolutionInfo store_mixed idx')) F32.f59_94 = true.
Proof.
  apply (ScreenResolutions_prefers_rate MODEMASK CUSTOM store_mixed F32.f59_94 19%nat).
  - unfold MODEMASK. lia.
  - reflexivity.
  - unfold CUSTOM. simpl. lia.
  - reflexivity.
Defined.

(** X13 on the store [store_mixed]. *)
Lemma RefreshRates_ascending_store_mixed :
  F32.ltb (RefreshRate (rate F32.f50 18)) (RefreshRate (rate F32.f60 20)) = true.
Proof.
  apply (RefreshRates_ascending MODEMASK DESKTOP store_mixed 1280 720 0
           0%nat 1%nat (rate F32.f50 18) (rate F32.f60 20)).
  - intros idx _. apply F32Arith.is_finite_not_nan, store_mixed_finite.
  - lia.
  - vm_compute. reflexivity.
  - vm_compute. reflexivity.
Defined.

(** X14 on the store [store_mixed]. *)
Lemma DefaultRefreshRate_of_desktop_mode_store_mixed :
  exists best,
    DefaultRefreshRate DESKTOP store_mixed
      (RefreshRates MODEMASK DESKTOP store_mixed 1920 1080 0) = Returns best
    /\ best ∈ RefreshRates MODEMASK DESKTOP store_mixed 1920 1080 0
    /\ F32.eqb (fitness F32.f60 best) F32.zero = true.
Proof.
  apply (DefaultRefreshRate_of_desktop_mode MODEMASK DESKTOP store_mixed).
  - unfold DESKTOP. simpl. lia.
  - intros idx _. apply store_mixed_finite.
Defined.

(** X17 on a store whose desktop record is made by
    [UpdateDesktopResolution]. *)
Definition blank : Window.RESOLUTION_INFO :=
  {| Window.Overscan := {| Window.left := 0; Window.top := 0;
                           Window.right := 0; Window.bottom := 0 |};
     Window.bFullScreen := false; Window.iSubtitles := 0;
     Window.dwFlags := 0; Window.fRefreshRate := F32.zero;
     Window.fPixelRatio := F32.zero; Window.iWidth := 0; Window.iHeight := 0;
     Window.iScreenWidth := 0; Window.iScreenHeight := 0;
     Window.strMode := ""; Window.strOutput := "" |}.

Definition desktop_made : Window.RESOLUTION_INFO :=
  Window.UpdateDesktopResolution (fun _ _ _ => "") (fun _ => "") 1 16 8
    blank "HDMI-1" 1920 1080 F32.f60 0.

Definition store_made : DisplaySettings :=
  settings_of_vector (low_records ++ [catalogue_view desktop_made])
                     (mode_720 F32.zero).

Lemma UpdateDesktopResolution_listed_store_made :
  exists rr,
    rr ∈ RefreshRates MODEMASK DESKTOP store_made 1920 1080 0
    /\ F32.eqb (RefreshRate rr) F32.f60 = true.
Proof.
  refine (proj1 (UpdateDesktopResolution_listed (fun _ _ _ => "") (fun _ => "")
                   1 16 8 MODEMASK DESKTOP CUSTOM store_made 16%nat blank
                   "HDMI-1" 1920 1080 F32.f60 0 eq_refl _) _ eq_refl);
    unfold DESKTOP, store_made, low_records; simpl; lia.
Defined.

End MoreExamples.
